(** * The view counter of [gemini.js]

    A shallow embedding of the [App] component of [src/gemini.js]: its hook
    state, its three effects, the callbacks it registers with the identity
    provider and with the document store, and its two authentication
    handlers.  The component is event driven, so it is modelled as a
    transition function over a world that holds the hook state, what React
    remembers about the effects (dependencies of the last run, cleanups), the
    asynchronous operations in flight and the list of calls the component has
    made to the outside (console, toasts, Firebase).

    How React is read:
    - a state setter takes effect at the next render, and the setters called
      in one handler or effect are batched into one render;
    - an effect closes over the values of the render it belongs to, runs
      after the first render and after every render in which one of its
      dependencies differs from the previous render's, its cleanup running
      first;
    - [useMemo] keeps its value while its dependency [db] is unchanged, so
      the document reference changes only when [db] does;
    - a mount is one step: the first render, the three effects, and the
      render that the setters of effect 1 ask for;
    - unmounting runs the cleanups and discards the hook state, so a later
      mount starts from the initial values again.

    The outside (the identity provider, the store, the user) is a list of
    events; an event that cannot happen in a world (an observer that is not
    registered, a promise that is not pending, a click on an unmounted page)
    leaves the world as it is. *)

From Stdlib Require Import ZArith Bool Lia.
From stdpp Require Import base option list strings gmap fin_maps.

Open Scope string_scope.

(** ** JavaScript values *)

Module Js.

(** The values a Firestore field or a JSON configuration entry can hold, as
    far as the component looks at them.  Numbers are the integers and [NaN];
    objects, arrays and maps are opaque (the component never looks inside
    one). *)
Inductive value : Type :=
| VUndefined
| VNull
| VBool (b : bool)
| VNum (n : Z)
| VNaN
| VStr (s : string)
| VObject.

(** ToBoolean: [undefined], [null], [false], [0], [NaN] and the empty string
    are falsy, everything else is truthy. *)
Definition truthy (v : value) : bool :=
  match v with
  | VUndefined | VNull | VNaN => false
  | VBool b => b
  | VNum n => negb (Z.eqb n 0)
  | VStr s => negb (String.eqb s "")
  | VObject => true
  end.

(** [a || b] *)
Definition or (a b : value) : value := if truthy a then a else b.

(** An object with string keys; [o.k] is [undefined] for a missing key. *)
Definition get (o : gmap string value) (k : string) : value :=
  default VUndefined (o !! k).

(** [!x] for a nullable object. *)
Definition is_null {A : Type} (x : option A) : bool :=
  match x with
  | Some _ => false
  | None => true
  end.

(** Truthiness of a nullable string ([null] or a string). *)
Definition truthy_str (s : option string) : bool :=
  match s with
  | Some s => negb (String.eqb s "")
  | None => false
  end.

End Js.

Export Js.

(** ** The document store *)

Module Store.

(** What a written field carries: a plain value or the [increment(n)]
    sentinel of [firebase/firestore]. *)
Inductive FieldValue : Type :=
| Literal (v : value)
| Increment (n : Z).

(** Modelled from the spec: the Remote Document Store is an external
    collaborator whose code is not part of the repository; section 2 gives it
    an "atomic numeric field increment on a keyed document" and section 4.2
    says the write increments [count] by exactly 1, "creating the document
    (with count = 1) if it does not exist".  A field that holds a number is
    incremented in place by the server and an absent field becomes the
    operand; the spec is silent on a field that holds something else, for
    which the Firestore SDK documents the operand as well. *)
Definition write_field (old : option value) (f : FieldValue) : value :=
  match f with
  | Literal v => v
  | Increment n =>
      match old with
      | Some (VNum m) => VNum (m + n)
      | _ => VNum n
      end
  end.

(** Modelled from the spec: [setDoc(ref, data, { merge })] on a document that
    is absent ([None]) or present.  With [merge] the fields of [data] are
    written into the existing document, which is created when absent;
    without it the document is replaced. *)
Definition setDoc (doc : option (gmap string value))
    (data : list (string * FieldValue)) (merge : bool)
    : option (gmap string value) :=
  let old := if merge then default ∅ doc else ∅ in
  Some (foldl (fun d kf => <[kf.1 := write_field (old !! kf.1) kf.2]> d) old data).

End Store.

Export Store.

(** ** Ambient globals (lines 7-13) *)

Record Globals : Type := {
  __app_id : option string;
  __firebase_config : option (gmap string value);
  __initial_auth_token : option string;
}.

Definition MOCK_ADMIN_EMAIL : string := "editor@thecurrent.edu".
Definition MOCK_ADMIN_PASSWORD : string := "password123".

(** ** Hook state of [App] (lines 38-46) *)

Inductive Firestore : Type := firestore.
Inductive Auth : Type := firebaseAuth.

Record State : Type := {
  db : option Firestore;
  auth : option Auth;
  userId : option string;
  isAuthReady : bool;
  viewCount : value;
  loginEmail : string;
  loginPassword : string;
  isLoggingIn : bool;
  showLogin : bool;
}.

Definition initState : State :=
  {| db := None; auth := None; userId := None; isAuthReady := false;
     viewCount := VNum 0; loginEmail := ""; loginPassword := "";
     isLoggingIn := false; showLogin := false |}.

Definition setDb (x : option Firestore) (s : State) : State :=
  match s with
  | Build_State _ a u r v e p l o => Build_State x a u r v e p l o
  end.

Definition setAuth (x : option Auth) (s : State) : State :=
  match s with
  | Build_State d _ u r v e p l o => Build_State d x u r v e p l o
  end.

Definition setUserId (x : option string) (s : State) : State :=
  match s with
  | Build_State d a _ r v e p l o => Build_State d a x r v e p l o
  end.

Definition setIsAuthReady (x : bool) (s : State) : State :=
  match s with
  | Build_State d a u _ v e p l o => Build_State d a u x v e p l o
  end.

Definition setViewCount (x : value) (s : State) : State :=
  match s with
  | Build_State d a u r _ e p l o => Build_State d a u r x e p l o
  end.

Definition setLoginEmail (x : string) (s : State) : State :=
  match s with
  | Build_State d a u r v _ p l o => Build_State d a u r v x p l o
  end.

Definition setLoginPassword (x : string) (s : State) : State :=
  match s with
  | Build_State d a u r v e _ l o => Build_State d a u r v e x l o
  end.

Definition setIsLoggingIn (x : bool) (s : State) : State :=
  match s with
  | Build_State d a u r v e p _ o => Build_State d a u r v e p x o
  end.

Definition setShowLogin (x : bool) (s : State) : State :=
  match s with
  | Build_State d a u r v e p l _ => Build_State d a u r v e p l x
  end.

(** Lines 183-184: [isLoggedIn = !!userId], [isAdmin = isLoggedIn]. *)
Definition isLoggedIn (s : State) : bool := truthy_str (userId s).
Definition isAdmin (s : State) : bool := isLoggedIn s.

(** ** Calls to the outside *)

Inductive call : Type :=
| ConsoleError (msg : string)
| ConsoleLog (msg : string)
| ShowToast (msg : string) (isError : bool)
| PreventDefault
| InitializeApp
| OnAuthStateChanged
| AuthUnsubscribe
| SignInWithCustomToken (token : string)
| SignInAnonymously
| SignOut
| SetDoc (path : string) (data : list (string * FieldValue)) (merge : bool)
| OnSnapshot (path : string)
| SnapshotUnsubscribe (path : string).

Definition is_SetDoc (c : call) : bool :=
  match c with SetDoc _ _ _ => true | _ => false end.

Definition is_store_call (c : call) : bool :=
  match c with
  | SetDoc _ _ _ | OnSnapshot _ | SnapshotUnsubscribe _ => true
  | _ => false
  end.

Definition is_auth_call (c : call) : bool :=
  match c with
  | SignInWithCustomToken _ | SignInAnonymously | SignOut
  | OnAuthStateChanged | AuthUnsubscribe | InitializeApp => true
  | _ => false
  end.

(** ** The world around the hook state *)

Record World : Type := {
  mounted : bool;
  hooks : State;
  (** [isAuthReady, analyticsDocPath] as effects 2 and 3 saw them at their
      last run; [None] before the first commit. *)
  effectDeps : option (bool * option string);
  (** the [onAuthStateChanged] observer is registered *)
  authListener : bool;
  (** the [onSnapshot] listener of effect 3, with the path it listens on *)
  snapshotListener : option string;
  (** sign-in promises of [attemptAuth] not yet settled *)
  pendingSignIns : nat;
  (** [setDoc] promises of [trackPageView] not yet settled *)
  pendingWrites : nat;
  (** every call made so far, oldest first *)
  calls : list call;
}.

Definition boot : World :=
  {| mounted := false; hooks := initState; effectDeps := None;
     authListener := false; snapshotListener := None;
     pendingSignIns := 0; pendingWrites := 0; calls := [] |}.

Definition withMounted (x : bool) (w : World) : World :=
  match w with
  | Build_World _ h ed al sl ps pw cs0 => Build_World x h ed al sl ps pw cs0
  end.

Definition withHooks (x : State) (w : World) : World :=
  match w with
  | Build_World m _ ed al sl ps pw cs0 => Build_World m x ed al sl ps pw cs0
  end.

Definition withEffectDeps (x : option (bool * option string)) (w : World) : World :=
  match w with
  | Build_World m h _ al sl ps pw cs0 => Build_World m h x al sl ps pw cs0
  end.

Definition withAuthListener (x : bool) (w : World) : World :=
  match w with
  | Build_World m h ed _ sl ps pw cs0 => Build_World m h ed x sl ps pw cs0
  end.

Definition withSnapshotListener (x : option string) (w : World) : World :=
  match w with
  | Build_World m h ed al _ ps pw cs0 => Build_World m h ed al x ps pw cs0
  end.

Definition withPendingSignIns (x : nat) (w : World) : World :=
  match w with
  | Build_World m h ed al sl _ pw cs0 => Build_World m h ed al sl x pw cs0
  end.

Definition withPendingWrites (x : nat) (w : World) : World :=
  match w with
  | Build_World m h ed al sl ps _ cs0 => Build_World m h ed al sl ps x cs0
  end.

(** Append calls to the record of what the component did. *)
Definition emit (cs : list call) (w : World) : World :=
  match w with
  | Build_World m h ed al sl ps pw cs0 => Build_World m h ed al sl ps pw (cs0 ++ cs)
  end.

(** A [setX(v)] of a hook: the new value is in place at the next render. *)
Definition setState (f : State → State) (w : World) : World :=
  withHooks (f (hooks w)) w.

(** ** The component *)

Inductive event : Type :=
(** the observer passed to [onAuthStateChanged] is called with [null] or
    with a user, given by its [uid] *)
| AuthStateChanged (user : option string)
(** the sign-in promise awaited by [attemptAuth] resolves or rejects *)
| SignInSettled (ok : bool)
(** the [setDoc] promise awaited by [trackPageView] resolves or rejects *)
| SetDocSettled (ok : bool)
(** the [onSnapshot] observer is called with a snapshot: [None] when
    [exists()] is false, else the result of [data()] *)
| Snapshot (doc : option (gmap string value))
(** the [onSnapshot] error observer is called *)
| SnapshotError
(** the controlled inputs of the login form, the "Editor Login" button and
    the "Cancel" button of the form *)
| ChangeEmail (s : string)
| ChangePassword (s : string)
| ClickEditorLogin
| ClickCancel
(** the login form is submitted *)
| SubmitLogin
(** "Sign Out" is clicked; [ok] tells whether [signOut(auth)] resolves *)
| ClickSignOut (ok : bool).

Inductive lifecycle : Type :=
| Mount
| Unmount
| Ev (e : event).

Section Component.

Variable g : Globals.

Definition appId : string := default "default-app-id" (__app_id g).
Definition firebaseConfig : gmap string value := default ∅ (__firebase_config g).
Definition initialAuthToken : option string := __initial_auth_token g.

(** Line 56 tests [!firebaseConfig.apiKey]. *)
Definition hasApiKey : bool := truthy (get firebaseConfig "apiKey").

(** Line 50: the path of the counter document. *)
Definition analyticsPath : string :=
  "/artifacts/" ++ appId ++ "/public/data/analytics/olhs_current_views".

(** Lines 49-52: the memoised document reference, [null] without a [db]. *)
Definition analyticsDocPath (s : State) : option string :=
  match db s with
  | Some _ => Some analyticsPath
  | None => None
  end.

(** Lines 80-92, up to the [await]: the sign-in call is made and its promise
    is pending. *)
Definition attemptAuth (w : World) : World :=
  let c := match initialAuthToken with
           | Some t => if truthy_str (Some t) then SignInWithCustomToken t
                       else SignInAnonymously
           | None => SignInAnonymously
           end in
  withPendingSignIns (S (pendingSignIns w)) (emit [c] w).

(** Lines 55-95, effect 1 (dependencies [[]], so it runs at mount only). *)
Definition initEffect (w : World) : World :=
  if negb hasApiKey then
    setState (setIsAuthReady true)
      (emit [ConsoleError "Firebase configuration missing. Cannot initialize Firestore/Auth."] w)
  else
    let w := emit [InitializeApp] w in
    let w := setState (setDb (Some firestore)) w in
    let w := setState (setAuth (Some firebaseAuth)) w in
    let w := withAuthListener true (emit [OnAuthStateChanged] w) in
    attemptAuth w.

(** Lines 103-111, up to the [await]. *)
Definition trackPageView (path : string) (w : World) : World :=
  withPendingWrites (S (pendingWrites w))
    (emit [SetDoc path [("count", Increment 1)] true] w).

(** Lines 99-114, effect 2, run with the values [s] of the render it belongs
    to. *)
Definition trackEffect (s : State) (w : World) : World :=
  match isAuthReady s, analyticsDocPath s with
  | true, Some path => trackPageView path w
  | _, _ => w
  end.

(** Lines 117-135, effect 3. *)
Definition subscribeEffect (s : State) (w : World) : World :=
  match isAuthReady s, analyticsDocPath s with
  | true, Some path => withSnapshotListener (Some path) (emit [OnSnapshot path] w)
  | _, _ => w
  end.

(** Line 134, the cleanup of effect 3; effect 2 returns none. *)
Definition subscribeCleanup (w : World) : World :=
  match snapshotListener w with
  | Some path => withSnapshotListener None (emit [SnapshotUnsubscribe path] w)
  | None => w
  end.

(** Line 94, the cleanup of effect 1. *)
Definition initCleanup (w : World) : World :=
  if authListener w then withAuthListener false (emit [AuthUnsubscribe] w) else w.

(** Effects 2 and 3 share the dependency list
    [[isAuthReady, analyticsDocPath]]. *)
Definition deps (s : State) : bool * option string :=
  (isAuthReady s, analyticsDocPath s).

(** React runs the cleanups of the effects whose dependencies changed, then
    their bodies in source order, all with the values of render [s]. *)
Definition runEffects (s : State) (w : World) : World :=
  withEffectDeps (Some (deps s)) (subscribeEffect s (trackEffect s (subscribeCleanup w))).

(** A render followed by its commit: effects 2 and 3 run again exactly when
    their dependencies differ from those of their last run. *)
Definition commit (w : World) : World :=
  if decide (effectDeps w = Some (deps (hooks w))) then w
  else runEffects (hooks w) w.

(** Mounting: the first render has the initial hook values; effects 1, 2
    and 3 run after it, 2 and 3 closing over those initial values; the state
    changes requested by effect 1 cause a second render and commit. *)
Definition mount (w : World) : World :=
  if mounted w then w
  else
    let w := withEffectDeps None (withHooks initState (withMounted true w)) in
    let w := initEffect w in
    let w := runEffects initState w in
    commit w.

(** Unmounting runs the cleanups and drops the hook state. *)
Definition unmount (w : World) : World :=
  if mounted w then
    withMounted false (withEffectDeps None (withHooks initState
      (subscribeCleanup (initCleanup w))))
  else w.

(** Lines 69-77. *)
Definition onAuthState (user : option string) (w : World) : World :=
  let w := match user with
           | Some uid => setState (setUserId (Some uid)) w
           | None => setState (setUserId None) w
           end in
  setState (setIsAuthReady true) w.

(** Lines 87-89: what is left of [attemptAuth] after its [await]. *)
Definition attemptAuthSettled (ok : bool) (w : World) : World :=
  if ok then w
  else emit [ConsoleError "Firebase Auth Error during initialization:"] w.

(** Lines 107-110: what is left of [trackPageView] after its [await]. *)
Definition trackPageViewSettled (ok : bool) (w : World) : World :=
  if ok then emit [ConsoleLog "Page view tracked successfully."] w
  else emit [ConsoleError "Error tracking page view:"] w.

(** Lines 121-129: the value the snapshot observer stores. *)
Definition snapshotCount (doc : option (gmap string value)) : value :=
  match doc with
  | Some data => Js.or (get data "count") (VNum 0)
  | None => VNum 0
  end.

Definition onSnapshotNext (doc : option (gmap string value)) (w : World) : World :=
  setState (setViewCount (snapshotCount doc)) w.

(** Lines 130-132. *)
Definition onSnapshotError (w : World) : World :=
  emit [ConsoleError "Error listening to analytics data:"] w.

(** Lines 141-167.  The handler has no [await], so it runs to its end. *)
Definition handleLogin (w : World) : World :=
  let w := emit [PreventDefault] w in
  let s := hooks w in
  if isLoggingIn s || is_null (auth s) then w
  else if negb (String.eqb (loginEmail s) MOCK_ADMIN_EMAIL)
          || negb (String.eqb (loginPassword s) MOCK_ADMIN_PASSWORD) then
    emit [ShowToast "Invalid credentials. Use 'editor@thecurrent.edu' / 'password123'" true] w
  else
    let w := setState (setIsLoggingIn true) w in
    let w := emit [ShowToast "Admin login successful. (Simulation: Real authentication requires a secure backend)." false] w in
    let w := setState (setShowLogin false) w in
    setState (setIsLoggingIn false) w.

(** Lines 169-179, with the outcome [ok] of the awaited [signOut(auth)]. *)
Definition handleSignOut (ok : bool) (w : World) : World :=
  match auth (hooks w) with
  | None => w
  | Some _ =>
      let w := emit [SignOut] w in
      if ok then
        let w := emit [ShowToast "Signed out successfully. Viewing as public." false] w in
        setState (setShowLogin false) w
      else
        emit [ConsoleError "Sign out failed:"; ShowToast "Sign out failed." true] w
  end.

(** One event.  An observer is called only while it is registered, a promise
    settles only while it is pending, and the page reacts to the user only
    while the component is mounted; every state change is followed by a
    render and its commit. *)
Definition handle (e : event) (w : World) : World :=
  match e with
  | AuthStateChanged user =>
      if authListener w then commit (onAuthState user w) else w
  | SignInSettled ok =>
      match pendingSignIns w with
      | O => w
      | S n => attemptAuthSettled ok (withPendingSignIns n w)
      end
  | SetDocSettled ok =>
      match pendingWrites w with
      | O => w
      | S n => trackPageViewSettled ok (withPendingWrites n w)
      end
  | Snapshot doc =>
      match snapshotListener w with
      | Some _ => commit (onSnapshotNext doc w)
      | None => w
      end
  | SnapshotError =>
      match snapshotListener w with
      | Some _ => onSnapshotError w
      | None => w
      end
  | ChangeEmail s =>
      if mounted w then commit (setState (setLoginEmail s) w) else w
  | ChangePassword s =>
      if mounted w then commit (setState (setLoginPassword s) w) else w
  | ClickEditorLogin =>
      if mounted w then commit (setState (setShowLogin true) w) else w
  | ClickCancel =>
      if mounted w then commit (setState (setShowLogin false) w) else w
  | SubmitLogin =>
      if mounted w then commit (handleLogin w) else w
  | ClickSignOut ok =>
      if mounted w then commit (handleSignOut ok w) else w
  end.

Definition step (w : World) (l : lifecycle) : World :=
  match l with
  | Mount => mount w
  | Unmount => unmount w
  | Ev e => handle e w
  end.

(** A run of the page from its load. *)
Definition run (tr : list lifecycle) : World := foldl step boot tr.

(** The life of one mounted component: mounted at load and never torn
    down. *)
Definition session (tr : list event) : World := run (Mount :: map Ev tr).

(** The number of increment writes issued so far. *)
Definition writes (w : World) : nat := length (filter (λ c, is_SetDoc c = true) (calls w)).

(** The one write the component knows. *)
Definition incrementWrite : call :=
  SetDoc analyticsPath [("count", Increment 1)] true.

End Component.

(** ** Reachable worlds *)

Section Invariant.

Variable g : Globals.

(** Both gates of effects 2 and 3 are open. *)
Definition gatesOpen (s : State) : bool :=
  isAuthReady s && bool_decide (is_Some (analyticsDocPath g s)).

(** Where the component stands. *)
Inductive phase : Type :=
| Unmounted   (* before the first mount, or torn down *)
| Awaiting    (* mounted with a configuration, no auth notification yet *)
| Live        (* mounted, ready, write issued, listening to the counter *)
| Idle.       (* mounted without an access key *)

(** What holds of every world a run can reach: it has one of four shapes. *)
Inductive shaped : phase → World → Prop :=
| shaped_unmounted pS pW cs :
    shaped Unmounted
      {| mounted := false; hooks := initState; effectDeps := None;
         authListener := false; snapshotListener := None;
         pendingSignIns := pS; pendingWrites := pW; calls := cs |}
| shaped_awaiting em pw li sl pS pW cs :
    hasApiKey g = true →
    shaped Awaiting
      {| mounted := true;
         hooks := {| db := Some firestore; auth := Some firebaseAuth;
                     userId := None; isAuthReady := false; viewCount := VNum 0;
                     loginEmail := em; loginPassword := pw;
                     isLoggingIn := li; showLogin := sl |};
         effectDeps := Some (false, Some (analyticsPath g));
         authListener := true; snapshotListener := None;
         pendingSignIns := pS; pendingWrites := pW; calls := cs |}
| shaped_live u v em pw li sl pS pW cs :
    hasApiKey g = true →
    shaped Live
      {| mounted := true;
         hooks := {| db := Some firestore; auth := Some firebaseAuth;
                     userId := u; isAuthReady := true; viewCount := v;
                     loginEmail := em; loginPassword := pw;
                     isLoggingIn := li; showLogin := sl |};
         effectDeps := Some (true, Some (analyticsPath g));
         authListener := true; snapshotListener := Some (analyticsPath g);
         pendingSignIns := pS; pendingWrites := pW; calls := cs |}
| shaped_idle em pw li sl pS pW cs :
    hasApiKey g = false →
    shaped Idle
      {| mounted := true;
         hooks := {| db := None; auth := None;
                     userId := None; isAuthReady := true; viewCount := VNum 0;
                     loginEmail := em; loginPassword := pw;
                     isLoggingIn := li; showLogin := sl |};
         effectDeps := Some (true, None);
         authListener := false; snapshotListener := None;
         pendingSignIns := pS; pendingWrites := pW; calls := cs |}.

(** How an event moves the component from phase to phase. *)
Definition nextPhase (ph : phase) (l : lifecycle) : phase :=
  match l, ph with
  | Mount, Unmounted => if hasApiKey g then Awaiting else Idle
  | Unmount, _ => Unmounted
  | Ev (AuthStateChanged _), Awaiting => Live
  | _, _ => ph
  end.

(** The phase a run ends in. *)
Definition phaseAfter (tr : list lifecycle) : phase :=
  foldl nextPhase Unmounted tr.

(** The only transition on which effect 2 gets past its guard. *)
Definition fired (ph : phase) (l : lifecycle) : nat :=
  match ph, l with
  | Awaiting, Ev (AuthStateChanged _) => 1
  | _, _ => 0
  end.

End Invariant.

(** ** Traces *)

Definition is_Mount (l : lifecycle) : bool :=
  match l with Mount => true | _ => false end.

Definition is_notification (e : event) : bool :=
  match e with AuthStateChanged _ => true | _ => false end.

Definition is_settlement (e : event) : bool :=
  match e with SignInSettled _ => true | _ => false end.

(** An event that is not an auth notification carrying a user. *)
Definition no_user (e : event) : bool :=
  match e with AuthStateChanged (Some _) => false | _ => true end.

(** The number of mounts a run asks for. *)
Definition countMounts (tr : list lifecycle) : nat :=
  length (filter (λ l, is_Mount l = true) tr).

(** Where a run leaves the page, read off the trace alone: not mounted,
    mounted and not yet notified by the identity provider, or mounted and
    notified.  A mount asked for on a mounted page is none; a teardown ends
    the mount, whatever it has seen. *)
Inductive mountState : Type :=
| Down
| Waiting
| Notified.

Definition mountStep (m : mountState) (l : lifecycle) : mountState :=
  match l, m with
  | Mount, Down => Waiting
  | Unmount, _ => Down
  | Ev (AuthStateChanged _), Waiting => Notified
  | _, _ => m
  end.

Definition mountStateAfter (tr : list lifecycle) : mountState :=
  foldl mountStep Down tr.

(** Whether [l], coming in [m], is the first auth notification of a mount. *)
Definition firstNotice (m : mountState) (l : lifecycle) : nat :=
  match m, l with
  | Waiting, Ev (AuthStateChanged _) => 1
  | _, _ => 0
  end.

(** The mounts of a run that have had an auth notification before their
    teardown. *)
Definition notifiedMounts (tr : list lifecycle) : nat :=
  (foldl (λ acc l, (mountStep acc.1 l, (acc.2 + firstNotice acc.1 l)%nat))
         (Down, 0%nat) tr).2.

(** ** The counter document under the calls of a run *)

(** The counter document after one call of the component: only a [setDoc]
    changes it. *)
Definition applyCall (doc : option (gmap string value)) (c : call)
    : option (gmap string value) :=
  match c with
  | SetDoc _ data merge => Store.setDoc doc data merge
  | _ => doc
  end.

Definition replay (doc : option (gmap string value)) (cs : list call)
    : option (gmap string value) :=
  foldl applyCall doc cs.

(** The part of a world the counter subsystem owns. *)
Definition counterState (w : World)
    : option Firestore * bool * value * option (bool * option string)
      * option string * nat :=
  (db (hooks w), isAuthReady (hooks w), viewCount (hooks w), effectDeps w,
   snapshotListener w, pendingWrites w).

Definition is_firebase_call (c : call) : bool :=
  is_store_call c || is_auth_call c.

(** ** Relations between a world and a later one *)

(** [w'] has made the calls of [w] and then [cs]. *)
Definition emitted (w w' : World) (cs : list call) : Prop :=
  calls w' = (calls w ++ cs)%list.

Section Relations.

Variable g : Globals.

(** From [w] to [w'] every write issued was the increment, and there were
    [n] of them. *)
Definition grows (n : nat) (w w' : World) : Prop :=
  ∃ cs, emitted w w' cs
        ∧ Forall (λ c, is_SetDoc c = true → c = incrementWrite g) cs
        ∧ length (filter (λ c, is_SetDoc c = true) cs) = n.

(** From [w] to [w'] nothing was asked of Firebase. *)
Definition quiet (w w' : World) : Prop :=
  ∃ cs, emitted w w' cs ∧ Forall (λ c, is_firebase_call c = false) cs.

(** From [w] to [w'] the counter subsystem did not move: same store handle,
    readiness, mirror, effect bookkeeping and listener, no store call. *)
Definition counterUntouched (w w' : World) : Prop :=
  counterState w' = counterState w
  ∧ ∃ cs, emitted w w' cs ∧ Forall (λ c, is_store_call c = false) cs.

(** The toast of an accepted login (line 159). *)
Definition loginToast : call :=
  ShowToast "Admin login successful. (Simulation: Real authentication requires a secure backend)." false.

(** What [handleLogin] looks at before it accepts: its two guards and the
    two literals. *)
Definition credentialsMatch (w : World) : Prop :=
  mounted w = true
  ∧ isLoggingIn (hooks w) = false
  ∧ auth (hooks w) ≠ None
  ∧ loginEmail (hooks w) = MOCK_ADMIN_EMAIL
  ∧ loginPassword (hooks w) = MOCK_ADMIN_PASSWORD.

(** A login submission from [w] to [w']: the counter subsystem and the
    session identity are as before, Firebase is not called, and the login is
    accepted exactly on matching literals. *)
Definition loginFrame (w w' : World) : Prop :=
  counterUntouched w w'
  ∧ userId (hooks w') = userId (hooks w)
  ∧ quiet w w'
  ∧ ∃ cs, emitted w w' cs ∧ (In loginToast cs ↔ credentialsMatch w).

(** A click on "Sign Out" from [w] to [w']. *)
Definition signOutFrame (w w' : World) : Prop :=
  counterUntouched w w'
  ∧ userId (hooks w') = userId (hooks w)
  ∧ ∃ cs, emitted w w' cs
          ∧ (In SignOut cs ↔ mounted w = true ∧ auth (hooks w) ≠ None).

End Relations.

(** ** Two deployments to evaluate the model on *)

Definition configured : Globals :=
  {| __app_id := Some "the-current";
     __firebase_config := Some {[ "apiKey" := VStr "AIza-demo";
                                  "projectId" := VStr "the-current" ]};
     __initial_auth_token := None |}.

Definition unconfigured : Globals :=
  {| __app_id := None; __firebase_config := None; __initial_auth_token := None |}.

(** * The rest of the file *)

(** ** Kinds of calls and of events *)

Definition is_OnSnapshot (c : call) : bool :=
  match c with OnSnapshot _ => true | _ => false end.

Definition is_SnapshotUnsubscribe (c : call) : bool :=
  match c with SnapshotUnsubscribe _ => true | _ => false end.

Definition is_OnAuthStateChanged (c : call) : bool :=
  match c with OnAuthStateChanged => true | _ => false end.

Definition is_AuthUnsubscribe (c : call) : bool :=
  match c with AuthUnsubscribe => true | _ => false end.


Definition is_toast (c : call) : bool :=
  match c with ShowToast _ _ => true | _ => false end.

(** The two console entries of [trackPageView] (lines 107 and 109). *)
Definition is_tracked (c : call) : bool :=
  match c with
  | ConsoleLog msg => String.eqb msg "Page view tracked successfully."
  | _ => false
  end.

Definition is_trackError (c : call) : bool :=
  match c with
  | ConsoleError msg => String.eqb msg "Error tracking page view:"
  | _ => false
  end.

(** The document a store call addresses. *)
Definition pathOf (c : call) : option string :=
  match c with
  | SetDoc path _ _ | OnSnapshot path | SnapshotUnsubscribe path => Some path
  | _ => None
  end.

(** How many calls of a kind a world has made. *)
Definition countCalls (p : call → bool) (w : World) : nat :=
  length (List.filter p (calls w)).

(** The settling of a promise, as opposed to an observer or the user. *)
Definition is_promise (e : event) : bool :=
  match e with SignInSettled _ | SetDocSettled _ => true | _ => false end.

Definition is_push (e : event) : bool :=
  match e with Snapshot _ => true | _ => false end.

(** The user of the last auth notification of a trace, [None] without
    one. *)
Definition lastUser (tr : list event) : option string :=
  foldl (λ u e, match e with AuthStateChanged user => user | _ => u end) None tr.

(** The last text typed into the email field of the login form (line 248),
    empty without one, and the same for the password field (line 260). *)
Definition lastEmail (tr : list event) : string :=
  foldl (λ s e, match e with ChangeEmail text => text | _ => s end) "" tr.

Definition lastPassword (tr : list event) : string :=
  foldl (λ s e, match e with ChangePassword text => text | _ => s end) "" tr.

(** The toast of a refused login (line 146). *)
Definition invalidToast : call :=
  ShowToast "Invalid credentials. Use 'editor@thecurrent.edu' / 'password123'" true.

(** The values the snapshot observer can store: a number, or anything
    truthy. *)
Definition mirrored (v : value) : bool :=
  match v with
  | VNum _ => true
  | _ => truthy v
  end.

(** What a mount leaves of the component, the record of calls and the
    promises in flight apart. *)
Definition instance (w : World)
    : bool * State * option (bool * option string) * bool * option string :=
  (mounted w, hooks w, effectDeps w, authListener w, snapshotListener w).

(** ** What a run keeps *)

(** Every listener registered and not released is standing. *)
Definition listenersBalanced (w : World) : Prop :=
  (countCalls is_OnSnapshot w
   = countCalls is_SnapshotUnsubscribe w
     + match snapshotListener w with Some _ => 1 | None => 0 end)%nat
  ∧ (countCalls is_OnAuthStateChanged w
     = countCalls is_AuthUnsubscribe w + (if authListener w then 1 else 0))%nat.

(** Every write is pending or has been reported once. *)
Definition writesAccounted (w : World) : Prop :=
  (countCalls is_SetDoc w
   = pendingWrites w + countCalls is_tracked w + countCalls is_trackError w)%nat.

(** The login handler is not running and the mirror can be displayed. *)
Definition presentable (s : State) : Prop :=
  isLoggingIn s = false ∧ mirrored (viewCount s) = true.

(** A listener is opened with every write, and only then. *)
Definition subscribedWithWrite (w : World) : Prop :=
  countCalls is_OnSnapshot w = countCalls is_SetDoc w.


(** From [w] to [w'] the toasts shown were [toasts]. *)
Definition answered (w w' : World) (toasts : list call) : Prop :=
  ∃ cs, emitted w w' cs ∧ List.filter is_toast cs = toasts.

Section Kept.

Variable g : Globals.

(** Every store call addresses the counter document. *)
Definition oneDocument (w : World) : Prop :=
  Forall (λ c, match pathOf c with
               | Some path => path = analyticsPath g
               | None => True
               end) (calls w).


End Kept.

(** ** What [App] returns (lines 183-411)

    The element tree of the [return] of [App] (lines 339-411) with the three
    components defined for it ([Header], [LoginPage], [AdminDashboard]).  The
    markup is left out; what is kept is what depends on the hook state: which
    of the two header variants, whether the dashboard and the login form are
    there, and the texts computed from the state.  The two method calls on
    state values are kept as calls.  The hooks that run before the [return]
    (lines 38-179, [useMemo] with its [doc(db, path)] included) are the
    component model above and not part of this. *)

Module View.

(** [receiver.substring(start, stop)] (line 206), kept as the call:
    JavaScript counts UTF-16 code units, which the strings of this model,
    sequences of bytes, do not resolve. *)
Inductive SubstringCall : Type :=
| Substring (receiver : string) (start stop : nat).

Inductive HeaderView : Type :=
(** "Admin ID: [userId.substring(0, 8)]..." and the "Sign Out" button *)
| AdminBar (adminId : SubstringCall)
(** the "Editor Login" button *)
| EditorLoginButton.

(** What [v.toLocaleString()] gives when [v] is a receiver. *)
Inductive LocaleText : Type :=
(** [v] a boolean, a number or a string: the text of the built-in method,
    which for a number depends on the locale; [v] stands for it *)
| OfPrimitive (v : value)
(** [v] an object: what the property the object has under that name does, a
    text or a throw (an own [toLocaleString] or [toString] that is not
    callable); objects are opaque in this model, so it is left open *)
| OfObject.

Inductive CountView : Type :=
| Loading
| Formatted (text : LocaleText).

Record DashboardView : Type := {
  totalPageViews : CountView;
  loggedInUser : string;
}.

Record LoginPageView : Type := {
  emailInput : string;
  passwordInput : string;
  submitDisabled : bool;
  submitLabel : string;
}.

Record Page : Type := {
  header : HeaderView;
  dashboard : option DashboardView;
  footerCount : LocaleText;
  loginPage : option LoginPageView;
}.

Definition localeText (v : value) : LocaleText :=
  match v with
  | VObject => OfObject
  | _ => OfPrimitive v
  end.

(** [v.toLocaleString()] (lines 294 and 405): a TypeError on [undefined]
    and on [null], which have no properties. *)
Definition toLocaleString (v : value) : option LocaleText :=
  match v with
  | VUndefined | VNull => None
  | _ => Some (localeText v)
  end.

(** Lines 188-232.  [userId.substring] on [null] is a TypeError. *)
Definition Header (s : State) : option HeaderView :=
  if isAdmin s then
    match userId s with
    | Some uid => Some (AdminBar (Substring uid 0 8))
    | None => None
    end
  else Some EditorLoginButton.

(** Lines 234-285. *)
Definition LoginPage (s : State) : LoginPageView :=
  {| emailInput := loginEmail s;
     passwordInput := loginPassword s;
     submitDisabled := isLoggingIn s;
     submitLabel := if isLoggingIn s then "Logging In..." else "Sign In" |}.

(** Lines 287-314. *)
Definition AdminDashboard (s : State) : option DashboardView :=
  let count := if isAuthReady s
               then match toLocaleString (viewCount s) with
                    | Some text => Some (Formatted text)
                    | None => None
                    end
               else Some Loading in
  match count with
  | Some c =>
      Some {| totalPageViews := c;
              loggedInUser := if truthy_str (userId s)
                              then default "" (userId s) else "N/A" |}
  | None => None
  end.

(** Lines 339-411: what [App] returns; [None] when one of the two method
    calls has no receiver.  A page that holds [OfObject] is the page only if
    that object's method returns a text. *)
Definition render (s : State) : option Page :=
  match Header s with
  | None => None
  | Some h =>
      match (if isAdmin s
             then match AdminDashboard s with
                  | Some d => Some (Some d)
                  | None => None
                  end
             else Some None) with
      | None => None
      | Some d =>
          match toLocaleString (viewCount s) with
          | None => None
          | Some text =>
              Some {| header := h;
                      dashboard := d;
                      footerCount := text;
                      loginPage := if showLogin s then Some (LoginPage s)
                                   else None |}
          end
      end
  end.

End View.

(** ** [showToast] (lines 18-33)

    The part of the DOM that [showToast] touches: the children of
    [#toast-container] when that element exists, the toast elements it has
    created (an element keeps its fields when it is detached), and the
    timeouts it has set.  Elements are named by the order of their
    creation. *)

Module Dom.

Record Toast : Type := {
  className : string;
  textContent : string;
  (** [style.opacity], unset at creation *)
  opacity : option string;
  (** how many [transitionend] listeners have been added *)
  transitionEndListeners : nat;
}.

Record Document : Type := {
  (** the children of [#toast-container], topmost first; [None] when the
      document has no such element *)
  toastContainer : option (list nat);
  elements : gmap nat Toast;
  (** the elements whose timeout is pending *)
  timeouts : list nat;
  nextId : nat;
}.

Definition newDocument (container : bool) : Document :=
  {| toastContainer := if container then Some [] else None;
     elements := ∅; timeouts := []; nextId := 0 |}.

(** Line 23. *)
Definition toastClass (isError : bool) : string :=
  "p-4 mb-2 rounded-lg shadow-xl text-white "
  ++ (if isError then "bg-red-600" else "bg-green-600")
  ++ " transition-opacity duration-300".

(** Lines 18-33, up to the return: the timeout is set, not yet due. *)
Definition showToast (message : string) (isError : bool) (d : Document)
    : Document :=
  match toastContainer d with
  | None => d
  | Some kids =>
      let toast := {| className := toastClass isError;
                      textContent := message;
                      opacity := None;
                      transitionEndListeners := 0 |} in
      {| toastContainer := Some (nextId d :: kids);
         elements := <[nextId d := toast]> (elements d);
         timeouts := (timeouts d ++ [nextId d])%list;
         nextId := S (nextId d) |}
  end.

(** Lines 29-32: the timeout of element [id] is due. *)
Definition fade (t : Toast) : Toast :=
  {| className := className t;
     textContent := textContent t;
     opacity := Some "0";
     transitionEndListeners := S (transitionEndListeners t) |}.

Definition onTimeout (id : nat) (d : Document) : Document :=
  if bool_decide (id ∈ timeouts d) then
    {| toastContainer := toastContainer d;
       elements := alter fade id (elements d);
       timeouts := List.filter (λ j, negb (Nat.eqb j id)) (timeouts d);
       nextId := nextId d |}
  else d.

(** Line 31: [toast.remove()], run by each [transitionend] listener of the
    element; it takes the element out of its parent. *)
Definition remove (id : nat) (d : Document) : Document :=
  {| toastContainer :=
       match toastContainer d with
       | Some kids => Some (List.filter (λ j, negb (Nat.eqb j id)) kids)
       | None => None
       end;
     elements := elements d;
     timeouts := timeouts d;
     nextId := nextId d |}.

Definition onTransitionEnd (id : nat) (d : Document) : Document :=
  match elements d !! id with
  | Some t =>
      match transitionEndListeners t with
      | O => d
      | S _ => remove id d
      end
  | None => d
  end.

Inductive domEvent : Type :=
(** a call [showToast(message, isError)] *)
| Toasting (message : string) (isError : bool)
(** the timeout set for element [id] is due *)
| TimerDue (id : nat)
(** a [transitionend] event reaches element [id] *)
| TransitionEnd (id : nat).

Definition domStep (d : Document) (e : domEvent) : Document :=
  match e with
  | Toasting message isError => showToast message isError d
  | TimerDue id => onTimeout id d
  | TransitionEnd id => onTransitionEnd id d
  end.

Definition domRun (d : Document) (evs : list domEvent) : Document :=
  foldl domStep d evs.

(** The texts on display, topmost first. *)
Definition displayed (d : Document) : list string :=
  omap (λ id, textContent <$> elements d !! id) (default [] (toastContainer d)).

(** Whether element [id] is a child of the container. *)
Definition onDisplay (id : nat) (d : Document) : bool :=
  existsb (Nat.eqb id) (default [] (toastContainer d)).

Definition is_TimerDue (id : nat) (e : domEvent) : bool :=
  match e with TimerDue j => Nat.eqb j id | _ => false end.

Definition is_TransitionEnd (id : nat) (e : domEvent) : bool :=
  match e with TransitionEnd j => Nat.eqb j id | _ => false end.

(** What [showToast] and its two callbacks keep: a child of the container
    and a pending timeout are elements that exist, and a new element is
    new. *)
Definition wellFormed (d : Document) : Prop :=
  (∀ id, In id (default [] (toastContainer d)) → id < nextId d)
  ∧ (∀ id, is_Some (elements d !! id) → id < nextId d)
  ∧ (∀ id, In id (timeouts d) → is_Some (elements d !! id)).

(** Element [id] is a child of the container and its timeout has not been
    due yet. *)
Definition fresh (id : nat) (d : Document) : Prop :=
  In id (default [] (toastContainer d))
  ∧ (∃ t, elements d !! id = Some t ∧ transitionEndListeners t = 0)
  ∧ id < nextId d.

End Dom.

(** * Properties *)

Open Scope list_scope.

(** ** Evaluating the model *)

Lemma commit_same g w :
  effectDeps w = Some (deps g (hooks w)) → commit g w = w.
Proof. intros H. unfold commit. by rewrite decide_True. Qed.

Lemma commit_changed g w :
  effectDeps w ≠ Some (deps g (hooks w)) →
  commit g w = runEffects g (hooks w) w.
Proof. intros H. unfold commit. by rewrite decide_False. Qed.

(** Evaluation of the model on a world given by its fields. *)
Ltac eval_model :=
  cbv beta iota zeta delta
    [step mount unmount handle runEffects initEffect subscribeEffect
     trackEffect trackPageView subscribeCleanup initCleanup onAuthState
     attemptAuthSettled trackPageViewSettled onSnapshotNext onSnapshotError
     handleLogin handleSignOut attemptAuth setState deps analyticsDocPath emit
     withMounted withHooks withEffectDeps withAuthListener withSnapshotListener
     withPendingSignIns withPendingWrites setDb setAuth setUserId
     setIsAuthReady setViewCount setLoginEmail setLoginPassword setIsLoggingIn
     setShowLogin mounted hooks effectDeps authListener snapshotListener
     pendingSignIns pendingWrites calls db auth userId isAuthReady viewCount
     loginEmail loginPassword isLoggingIn showLogin initState negb orb andb
     is_null truthy_str nextPhase fired no_user is_settlement is_notification].


(** A commit either finds the dependencies of effects 2 and 3 unchanged, or
    runs both again. *)
Ltac commits :=
  eval_model;
  repeat (first
    [ rewrite commit_same by (eval_model; reflexivity)
    | rewrite commit_changed by (eval_model; discriminate) ];
    eval_model).

(** Case analysis on the innermost scrutinee the evaluation is stuck on. *)
Ltac split_inner :=
  match goal with
  | |- context [match ?x with _ => _ end] =>
      lazymatch x with
      | context [match _ with _ => _ end] => fail
      | _ => destruct x eqn:?
      end
  end.

(** One step from a world of a known shape, evaluated in every case. *)
Ltac shape_cases g Hw :=
  let Hk := fresh "Hk" in
  destruct Hw;
  cbv beta iota zeta delta [step mount initEffect mounted nextPhase];
  destruct (hasApiKey g) eqn:Hk; simplify_eq;
  commits; repeat (split_inner; simplify_eq; commits).

Ltac event_cases g Hw e :=
  destruct e as [[?|]|[]|[]|[?|]| |?|?| | | |[]]; shape_cases g Hw.

Ltac step_cases g Hw l :=
  destruct l as [| |?e]; [shape_cases g Hw|shape_cases g Hw|event_cases g Hw e].

(** Closes [emitted w w' cs] and what is said of [cs]. *)
Ltac emitted_calls :=
  unfold emitted; simpl;
  first
    [ exists []; rewrite app_nil_r; split; [reflexivity|]
    | rewrite <- ?app_assoc; simpl; eexists; split; [reflexivity|] ];
  repeat match goal with
         | |- _ ∧ _ => split
         | |- Forall _ [] => apply Forall_nil
         | |- Forall _ (_ :: _) =>
             apply Forall_cons; split; [simpl; intros; try discriminate|]
         end; try reflexivity.

(** ** Steps and runs *)

Section Steps.

Variable g : Globals.

Lemma step_shaped ph w l :
  shaped g ph w → shaped g (nextPhase g ph l) (step g w l).
Proof. intros Hw. step_cases g Hw l; by constructor. Qed.

Lemma step_grows ph w l :
  shaped g ph w → grows g (fired ph l) w (step g w l).
Proof. intros Hw. step_cases g Hw l; unfold grows; emitted_calls. Qed.

Lemma step_quiet ph w l :
  hasApiKey g = false → shaped g ph w → quiet w (step g w l).
Proof.
  intros Hk0 Hw. step_cases g Hw l; unfold quiet; emitted_calls.
Qed.

Lemma run_snoc tr l : run g (tr ++ [l]) = step g (run g tr) l.
Proof. unfold run. by rewrite foldl_snoc. Qed.

Lemma phaseAfter_snoc tr l :
  phaseAfter g (tr ++ [l]) = nextPhase g (phaseAfter g tr) l.
Proof. unfold phaseAfter. by rewrite foldl_snoc. Qed.

Lemma run_shaped tr : shaped g (phaseAfter g tr) (run g tr).
Proof.
  induction tr as [|l tr IH] using rev_ind; [constructor|].
  rewrite run_snoc, phaseAfter_snoc. by apply step_shaped.
Qed.

Lemma grows_writes n w w' : grows g n w w' → writes w' = (writes w + n)%nat.
Proof.
  intros (cs & Hcs & _ & Hn). unfold writes. rewrite Hcs, filter_app, length_app. lia.
Qed.

Lemma grows_In n w w' c : grows g n w w' → In c (calls w) → In c (calls w').
Proof.
  intros (cs & Hcs & _) Hin. rewrite Hcs. apply in_or_app. by left.
Qed.

Lemma shaped_fields ph w :
  shaped g ph w →
  mounted w = match ph with Unmounted => false | _ => true end
  ∧ isAuthReady (hooks w) = match ph with Live | Idle => true | _ => false end
  ∧ db (hooks w) = match ph with Awaiting | Live => Some firestore | _ => None end
  ∧ auth (hooks w) = match ph with Awaiting | Live => Some firebaseAuth | _ => None end
  ∧ authListener w = match ph with Awaiting | Live => true | _ => false end
  ∧ snapshotListener w = match ph with Live => Some (analyticsPath g) | _ => None end
  ∧ (ph ≠ Live → viewCount (hooks w) = VNum 0 ∧ userId (hooks w) = None).
Proof. destruct 1; simpl; repeat split; done. Qed.

Lemma shaped_key ph w :
  shaped g ph w →
  match ph with
  | Unmounted => True
  | Awaiting | Live => hasApiKey g = true
  | Idle => hasApiKey g = false
  end.
Proof. by destruct 1. Qed.

Lemma shaped_boot : shaped g Unmounted boot.
Proof. constructor. Qed.

Lemma session_snoc tr e : session g (tr ++ [e]) = step g (session g tr) (Ev e).
Proof.
  unfold session. rewrite map_app. simpl.
  change (Mount :: map Ev tr ++ [Ev e]) with ((Mount :: map Ev tr) ++ [Ev e]).
  apply run_snoc.
Qed.

Lemma session_phase tr :
  phaseAfter g (Mount :: map Ev tr)
  = if hasApiKey g then if existsb is_notification tr then Live else Awaiting
    else Idle.
Proof.
  induction tr as [|e tr IH] using rev_ind; [done|].
  rewrite map_app. simpl.
  change (Mount :: map Ev tr ++ [Ev e]) with ((Mount :: map Ev tr) ++ [Ev e]).
  rewrite phaseAfter_snoc, IH, existsb_app. simpl.
  destruct (hasApiKey g), (existsb is_notification tr), e; done.
Qed.

Lemma session_shaped tr :
  shaped g (if hasApiKey g then if existsb is_notification tr then Live else Awaiting
            else Idle) (session g tr).
Proof. rewrite <- session_phase. apply run_shaped. Qed.

Lemma session_writes tr :
  writes (session g tr) = if hasApiKey g && existsb is_notification tr then 1%nat else 0%nat.
Proof.
  induction tr as [|e tr IH] using rev_ind.
  - change (session g []) with (step g boot Mount).
    rewrite (grows_writes _ _ _ (step_grows _ _ Mount shaped_boot)).
    by destruct (hasApiKey g).
  - rewrite session_snoc.
    rewrite (grows_writes _ _ _ (step_grows _ _ (Ev e) (session_shaped tr))), IH.
    rewrite existsb_app. simpl.
    destruct (hasApiKey g), (existsb is_notification tr), e; done.
Qed.

(** *** The handlers of the login form and of "Sign Out" *)

Lemma step_login ph w :
  shaped g ph w → loginFrame w (step g w (Ev SubmitLogin)).
Proof.
  intros Hw. shape_cases g Hw; unfold loginFrame, counterUntouched, quiet, credentialsMatch.
  all: repeat match goal with |- _ ∧ _ => split end; try reflexivity.
  all: try emitted_calls.
  all: repeat match goal with
              | H : String.eqb _ _ = true |- _ => apply String.eqb_eq in H
              | H : String.eqb _ _ = false |- _ => apply String.eqb_neq in H
              end.
  all: unfold loginToast; simpl; intuition (discriminate || congruence).
Qed.

Lemma step_sign_out ph w ok :
  shaped g ph w → signOutFrame w (step g w (Ev (ClickSignOut ok))).
Proof.
  intros Hw. destruct ok; shape_cases g Hw; unfold signOutFrame, counterUntouched.
  all: repeat match goal with |- _ ∧ _ => split end; try reflexivity.
  all: try emitted_calls.
  all: simpl; intuition (discriminate || congruence).
Qed.

(** *** The snapshot observer *)

Lemma step_push ph w doc :
  shaped g ph w →
  snapshotListener w ≠ None →
  viewCount (hooks (step g w (Ev (Snapshot doc)))) = snapshotCount doc
  ∧ calls (step g w (Ev (Snapshot doc))) = calls w.
Proof.
  intros Hw. destruct doc; shape_cases g Hw; done.
Qed.

Lemma step_push_calls ph w doc :
  shaped g ph w → calls (step g w (Ev (Snapshot doc))) = calls w.
Proof. intros Hw. destruct doc; shape_cases g Hw; done. Qed.

(** *** The auth observer and the sign-in promise *)

Lemma step_notified ph w user :
  shaped g ph w →
  isAuthReady (hooks w) = true →
  counterUntouched w (step g w (Ev (AuthStateChanged user)))
  ∧ (authListener w = true →
     userId (hooks (step g w (Ev (AuthStateChanged user)))) = user).
Proof.
  intros Hw. destruct user; shape_cases g Hw; unfold counterUntouched.
  all: intros; simplify_eq.
  all: repeat match goal with |- _ ∧ _ => split end; try done.
  all: emitted_calls.
Qed.

Lemma step_anonymous ph w e :
  shaped g ph w →
  no_user e = true →
  userId (hooks w) = None →
  userId (hooks (step g w (Ev e))) = None.
Proof.
  intros Hw. event_cases g Hw e; done.
Qed.

Lemma step_pending ph w e :
  shaped g ph w →
  is_settlement e = false →
  pendingSignIns (step g w (Ev e)) = pendingSignIns w.
Proof.
  intros Hw. event_cases g Hw e; done.
Qed.

(** *** Mounting without an access key *)

Lemma mount_idle ph w :
  shaped g ph w →
  hasApiKey g = false →
  mounted w = false →
  calls (step g w Mount)
  = calls w ++ [ConsoleError "Firebase configuration missing. Cannot initialize Firestore/Auth."].
Proof. intros Hw. shape_cases g Hw; intros; done. Qed.

Lemma mount_pending ph w :
  shaped g ph w →
  hasApiKey g = true →
  mounted w = false →
  pendingSignIns (step g w Mount) = S (pendingSignIns w).
Proof. intros Hw. shape_cases g Hw; intros; done. Qed.

Lemma step_error ph w :
  shaped g ph w → counterUntouched w (step g w (Ev SnapshotError)).
Proof.
  intros Hw. shape_cases g Hw; unfold counterUntouched.
  all: split; [reflexivity|emitted_calls].
Qed.

(** *** Whole runs *)

Lemma run_grows tr tr' :
  ∃ n, grows g n (run g tr) (run g (tr ++ tr')).
Proof.
  induction tr' as [|l tr' IH] using rev_ind.
  - exists 0%nat, []. rewrite app_nil_r. unfold emitted.
    rewrite app_nil_r. by repeat split.
  - destruct IH as (n & cs & Hcs & Hall & Hn).
    rewrite app_assoc, run_snoc.
    destruct (step_grows _ _ l (run_shaped (tr ++ tr'))) as (cs' & Hcs' & Hall' & Hn').
    exists (n + fired (phaseAfter g (tr ++ tr')) l)%nat, (cs ++ cs').
    unfold emitted in *. rewrite Hcs', Hcs, app_assoc.
    repeat split; [by apply Forall_app|].
    rewrite filter_app, length_app. lia.
Qed.

Lemma run_increment tr :
  Forall (λ c, c = incrementWrite g)
         (filter (λ c, is_SetDoc c = true) (calls (run g tr))).
Proof.
  destruct (run_grows [] tr) as (n & cs & Hcs & Hall & _).
  unfold emitted in Hcs. simpl in Hcs. rewrite Hcs.
  clear Hcs. induction Hall as [|c cs Hc _ IH]; [constructor|].
  rewrite filter_cons. case_decide; [|done]. constructor; auto.
Qed.

Lemma run_In tr tr' c :
  In c (calls (run g tr)) → In c (calls (run g (tr ++ tr'))).
Proof.
  destruct (run_grows tr tr') as (n & Hn). by apply (grows_In _ _ _ _ Hn).
Qed.

Lemma session_In tr tr' c :
  In c (calls (session g tr)) → In c (calls (session g (tr ++ tr'))).
Proof.
  unfold session. rewrite map_app.
  change (Mount :: map Ev tr ++ map Ev tr')
    with ((Mount :: map Ev tr) ++ map Ev tr').
  apply run_In.
Qed.

(** Without an access key a run only ever is unmounted or idle. *)
Lemma idle_phase tr :
  hasApiKey g = false →
  phaseAfter g tr = Unmounted ∨ phaseAfter g tr = Idle.
Proof.
  intros Hk. induction tr as [|l tr IH] using rev_ind; [by left|].
  rewrite phaseAfter_snoc. unfold nextPhase. rewrite Hk.
  destruct IH as [-> | ->], l as [| |[]]; auto.
Qed.

Lemma run_quiet tr :
  hasApiKey g = false →
  Forall (λ c, is_firebase_call c = false) (calls (run g tr)).
Proof.
  intros Hk. induction tr as [|l tr IH] using rev_ind; [constructor|].
  rewrite run_snoc.
  destruct (step_quiet _ _ l Hk (run_shaped tr)) as (cs & Hcs & Hall).
  unfold emitted in Hcs. rewrite Hcs. by apply Forall_app.
Qed.

Lemma quiet_writes w :
  Forall (λ c, is_firebase_call c = false) (calls w) → writes w = 0%nat.
Proof.
  unfold writes. induction 1 as [|c cs Hc _ IH]; [done|].
  rewrite filter_cons. case_decide; [|done]. by destruct c.
Qed.

(** *** Sessions in which the sign-in fails *)

Lemma session_pending tr :
  hasApiKey g = true →
  forallb (λ e, negb (is_settlement e)) tr = true →
  pendingSignIns (session g tr) = 1%nat.
Proof.
  intros Hk. induction tr as [|e tr IH] using rev_ind; intros Hall.
  - change (session g []) with (step g boot Mount).
    by rewrite (mount_pending _ _ shaped_boot Hk eq_refl).
  - rewrite forallb_app in Hall. apply andb_prop in Hall as [Htr He].
    simpl in He. rewrite andb_true_r in He. apply negb_true_iff in He.
    rewrite session_snoc, (step_pending _ _ _ (session_shaped tr) He). auto.
Qed.

Lemma session_anonymous tr :
  forallb no_user tr = true → userId (hooks (session g tr)) = None.
Proof.
  induction tr as [|e tr IH] using rev_ind; intros Hall.
  - destruct (shaped_fields _ _ (session_shaped [])) as (_ & _ & _ & _ & _ & _ & Hrest).
    apply Hrest. simpl. by destruct (hasApiKey g).
  - rewrite forallb_app in Hall. apply andb_prop in Hall as [Htr He].
    simpl in He. rewrite andb_true_r in He.
    rewrite session_snoc. apply (step_anonymous _ _ _ (session_shaped tr) He). auto.
Qed.

Lemma session_ready tr :
  isAuthReady (hooks (session g tr))
  = negb (hasApiKey g) || existsb is_notification tr.
Proof.
  destruct (shaped_fields _ _ (session_shaped tr)) as (_ & Hr & _).
  rewrite Hr. by destruct (hasApiKey g), (existsb is_notification tr).
Qed.

(** *** The counter document *)

Lemma setDoc_increment_absent :
  Store.setDoc None [("count", Increment 1)] true = Some {[ "count" := VNum 1 ]}.
Proof.
  unfold Store.setDoc. simpl. rewrite lookup_empty. simpl.
  by rewrite insert_empty.
Qed.

Lemma setDoc_increment_present (d : gmap string value) n :
  Store.setDoc (Some (<["count" := VNum n]> d)) [("count", Increment 1)] true
  = Some (<["count" := VNum (n + 1)]> d).
Proof.
  unfold Store.setDoc. simpl. rewrite lookup_insert_eq. simpl.
  by rewrite insert_insert_eq.
Qed.

Lemma replay_increment (cs : list call) (d : gmap string value) n :
  Forall (λ c, c = incrementWrite g) (filter (λ c, is_SetDoc c = true) cs) →
  replay (Some (<["count" := VNum n]> d)) cs
  = Some (<["count" := VNum (n + Z.of_nat (length (filter (λ c, is_SetDoc c = true) cs)))]> d).
Proof.
  revert n. induction cs as [|c cs IH]; intros n Hall.
  - simpl. by rewrite Z.add_0_r.
  - rewrite filter_cons in Hall |- *. case_decide as Hc.
    + apply Forall_cons in Hall as [-> Hall].
      change (replay ?doc (incrementWrite g :: cs))
        with (replay (Store.setDoc doc [("count", Increment 1)] true) cs).
      rewrite setDoc_increment_present, IH by done.
      do 2 f_equal. simpl length. f_equal. lia.
    + destruct c; try done; apply IH; done.
Qed.

End Steps.

(** ** More of the component *)

(** Counts of calls over a world given by its fields. *)
Ltac count_calls :=
  cbv beta iota delta
    [listenersBalanced writesAccounted subscribedWithWrite countCalls calls
     snapshotListener authListener pendingWrites];
  rewrite ?List.filter_app, ?length_app; simpl;
  intros; repeat match goal with H : _ ∧ _ |- _ => destruct H end;
  repeat split; lia.

Section Bookkeeping.

Variable g : Globals.

Lemma run_invariant (P : World → Prop) :
  P boot →
  (∀ ph w l, shaped g ph w → P w → P (step g w l)) →
  ∀ tr, P (run g tr).
Proof.
  intros H0 Hstep tr. induction tr as [|l tr IH] using rev_ind; [done|].
  rewrite run_snoc. by apply (Hstep _ _ _ (run_shaped g tr)).
Qed.

Lemma step_listenersBalanced ph w l :
  shaped g ph w → listenersBalanced w → listenersBalanced (step g w l).
Proof. intros Hw. step_cases g Hw l; count_calls. Qed.

Lemma step_writesAccounted ph w l :
  shaped g ph w → writesAccounted w → writesAccounted (step g w l).
Proof. intros Hw. step_cases g Hw l; count_calls. Qed.

Lemma step_subscribedWithWrite ph w l :
  shaped g ph w → subscribedWithWrite w → subscribedWithWrite (step g w l).
Proof. intros Hw. step_cases g Hw l; count_calls. Qed.

Lemma step_oneDocument ph w l :
  shaped g ph w → oneDocument g w → oneDocument g (step g w l).
Proof.
  intros Hw. step_cases g Hw l; unfold oneDocument; simpl; intros Hall.
  all: repeat match goal with
              | |- Forall _ (_ ++ _) => apply Forall_app; split
              | |- Forall _ (_ :: _) => apply Forall_cons; split
              | |- Forall _ [] => apply Forall_nil
              end; simpl; done.
Qed.



Lemma mirrored_snapshotCount doc : mirrored (snapshotCount doc) = true.
Proof.
  destruct doc as [data|]; [|done]. unfold snapshotCount, Js.or.
  destruct (truthy (get data "count")) eqn:Ht; [|done].
  by destruct (get data "count").
Qed.

Lemma step_presentable ph w l :
  shaped g ph w → presentable (hooks w) → presentable (hooks (step g w l)).
Proof.
  intros Hw. step_cases g Hw l; unfold presentable;
    cbn [isLoggingIn viewCount].
  all: intros [? ?]; split; try done.
  all: apply mirrored_snapshotCount.
Qed.

Lemma step_userId ph w e :
  shaped g ph w →
  authListener w = true →
  userId (hooks (step g w (Ev e)))
  = match e with AuthStateChanged user => user | _ => userId (hooks w) end.
Proof. intros Hw. event_cases g Hw e; done. Qed.

Lemma step_mirror_frame ph w e :
  shaped g ph w →
  is_push e = false →
  viewCount (hooks (step g w (Ev e))) = viewCount (hooks w).
Proof. intros Hw. event_cases g Hw e; done. Qed.

Lemma step_inert ph w e :
  shaped g ph w →
  mounted w = false →
  is_promise e = false →
  step g w (Ev e) = w.
Proof. intros Hw. event_cases g Hw e; done. Qed.

Lemma step_settled_hooks w ok :
  hooks (step g w (Ev (SetDocSettled ok))) = hooks w.
Proof. destruct w as [? ? ? ? ? ? [|n] ?], ok; done. Qed.

Lemma remount_instance ph w :
  shaped g ph w →
  instance (step g (step g w Unmount) Mount) = instance (step g boot Mount).
Proof.
  intros Hw. unfold boot. shape_cases g Hw; unfold instance; simpl; done.
Qed.

Lemma step_answered ph w :
  shaped g ph w →
  isLoggingIn (hooks w) = false →
  answered w (step g w (Ev SubmitLogin))
    (if mounted w && hasApiKey g
     then [if String.eqb (loginEmail (hooks w)) MOCK_ADMIN_EMAIL
              && String.eqb (loginPassword (hooks w)) MOCK_ADMIN_PASSWORD
           then loginToast else invalidToast]
     else []).
Proof.
  intros Hw. shape_cases g Hw; unfold answered, emitted; simpl.
  all: intros; simplify_eq.
  all: first
    [ exists []; rewrite app_nil_r; split; reflexivity
    | rewrite <- ?app_assoc; simpl; eexists; split; [reflexivity|] ].
  all: simpl; rewrite ?Hk; simpl;
       repeat match goal with H : String.eqb _ _ = _ |- _ => rewrite H end;
       reflexivity.
Qed.


Lemma push_unheard w doc :
  snapshotListener w = None → step g w (Ev (Snapshot doc)) = w.
Proof. destruct w; simpl. by intros ->. Qed.

Lemma writes_countCalls w : writes w = countCalls is_SetDoc w.
Proof.
  unfold writes, countCalls. induction (calls w) as [|c cs IH]; [done|].
  rewrite filter_cons. simpl. case_decide as Hc.
  - rewrite Hc. simpl. by rewrite IH.
  - destruct (is_SetDoc c); [done|]. apply IH.
Qed.

(** *** What every run keeps *)

Lemma run_listenersBalanced tr : listenersBalanced (run g tr).
Proof.
  apply run_invariant; [by split|]. apply step_listenersBalanced.
Qed.

Lemma run_writesAccounted tr : writesAccounted (run g tr).
Proof. apply run_invariant; [done|]. apply step_writesAccounted. Qed.

Lemma run_subscribedWithWrite tr : subscribedWithWrite (run g tr).
Proof. apply run_invariant; [done|]. apply step_subscribedWithWrite. Qed.

Lemma run_oneDocument tr : oneDocument g (run g tr).
Proof. apply run_invariant; [constructor|]. apply step_oneDocument. Qed.

Lemma run_presentable tr : presentable (hooks (run g tr)).
Proof. apply run_invariant; [by split|]. apply step_presentable. Qed.

Lemma lastUser_snoc tr e :
  lastUser (tr ++ [e])
  = match e with AuthStateChanged user => user | _ => lastUser tr end.
Proof. unfold lastUser. by rewrite foldl_snoc. Qed.

Lemma mirror_values tr :
  isLoggingIn (hooks (run g tr)) = false
  ∧ View.toLocaleString (viewCount (hooks (run g tr)))
    = Some (View.localeText (viewCount (hooks (run g tr)))).
Proof.
  destruct (run_presentable tr) as [Hli Hv]. split; [done|].
  by destruct (viewCount (hooks (run g tr))) as [| |[]| | | |].
Qed.

Lemma admin_is_ready tr :
  isAdmin (hooks (run g tr)) = true → isAuthReady (hooks (run g tr)) = true.
Proof.
  intros Ha.
  destruct (shaped_fields g _ _ (run_shaped g tr)) as (_ & Hr & _ & _ & _ & _ & Hrest).
  rewrite Hr. destruct (phaseAfter g tr); try done.
  - destruct Hrest as [_ Hu]; [done|].
    unfold isAdmin, isLoggedIn in Ha. by rewrite Hu in Ha.
  - destruct Hrest as [_ Hu]; [done|].
    unfold isAdmin, isLoggedIn in Ha. by rewrite Hu in Ha.
Qed.

End Bookkeeping.

(** ** Mount after mount *)

Section Mounts.

Variable g : Globals.

Lemma mountStateAfter_snoc tr l :
  mountStateAfter (tr ++ [l]) = mountStep (mountStateAfter tr) l.
Proof. unfold mountStateAfter. by rewrite foldl_snoc. Qed.

Lemma notifiedMounts_state tr :
  (foldl (λ acc l, (mountStep acc.1 l, (acc.2 + firstNotice acc.1 l)%nat))
         (Down, 0%nat) tr).1
  = mountStateAfter tr.
Proof.
  induction tr as [|l tr IH] using rev_ind; [done|].
  by rewrite foldl_snoc, mountStateAfter_snoc, <- IH.
Qed.

Lemma notifiedMounts_snoc tr l :
  notifiedMounts (tr ++ [l])
  = (notifiedMounts tr + firstNotice (mountStateAfter tr) l)%nat.
Proof.
  unfold notifiedMounts. rewrite foldl_snoc. simpl.
  by rewrite notifiedMounts_state.
Qed.

Lemma mountStateAfter_mount tr evs :
  mountStateAfter tr = Down →
  mountStateAfter (tr ++ Mount :: map Ev evs)
  = if existsb is_notification evs then Notified else Waiting.
Proof.
  intros Hd. induction evs as [|e evs IH] using rev_ind.
  - change (tr ++ Mount :: map Ev []) with (tr ++ [Mount]).
    by rewrite mountStateAfter_snoc, Hd.
  - rewrite map_app. simpl.
    change (tr ++ Mount :: map Ev evs ++ [Ev e])
      with (tr ++ (Mount :: map Ev evs) ++ [Ev e]).
    rewrite app_assoc, mountStateAfter_snoc, IH, existsb_app. simpl.
    by destruct (existsb is_notification evs), e.
Qed.

Lemma notifiedMounts_mount tr evs :
  mountStateAfter tr = Down →
  notifiedMounts (tr ++ Mount :: map Ev evs)
  = (notifiedMounts tr + if existsb is_notification evs then 1 else 0)%nat.
Proof.
  intros Hd. induction evs as [|e evs IH] using rev_ind.
  - change (tr ++ Mount :: map Ev []) with (tr ++ [Mount]).
    rewrite notifiedMounts_snoc, Hd. simpl. lia.
  - rewrite map_app. simpl.
    change (tr ++ Mount :: map Ev evs ++ [Ev e])
      with (tr ++ (Mount :: map Ev evs) ++ [Ev e]).
    rewrite app_assoc, notifiedMounts_snoc, IH, existsb_app.
    rewrite (mountStateAfter_mount tr evs Hd). simpl.
    destruct (existsb is_notification evs), e; simpl; lia.
Qed.

Lemma notifiedMounts_countMounts tr : (notifiedMounts tr ≤ countMounts tr)%nat.
Proof.
  assert (notifiedMounts tr
          + match mountStateAfter tr with Waiting => 1 | _ => 0 end
          ≤ countMounts tr)%nat; [|lia].
  induction tr as [|l tr IH] using rev_ind; [done|].
  rewrite notifiedMounts_snoc, mountStateAfter_snoc.
  unfold countMounts in *. rewrite filter_app, length_app.
  destruct (mountStateAfter tr), l as [| |[]]; simpl in *; lia.
Qed.

(** The phase of a run, read off its trace. *)
Lemma run_phase tr :
  phaseAfter g tr
  = match mountStateAfter tr with
    | Down => Unmounted
    | Waiting => if hasApiKey g then Awaiting else Idle
    | Notified => if hasApiKey g then Live else Idle
    end.
Proof.
  induction tr as [|l tr IH] using rev_ind; [done|].
  rewrite phaseAfter_snoc, mountStateAfter_snoc, IH. unfold nextPhase.
  destruct (mountStateAfter tr), l as [| |[]], (hasApiKey g); done.
Qed.

Lemma run_mounted tr :
  mounted (run g tr)
  = match mountStateAfter tr with Down => false | _ => true end.
Proof.
  destruct (shaped_fields g _ _ (run_shaped g tr)) as (-> & _).
  rewrite run_phase. by destruct (mountStateAfter tr), (hasApiKey g).
Qed.

Lemma run_ready tr :
  isAuthReady (hooks (run g tr))
  = match mountStateAfter tr with
    | Down => false
    | Waiting => negb (hasApiKey g)
    | Notified => true
    end.
Proof.
  destruct (shaped_fields g _ _ (run_shaped g tr)) as (_ & -> & _).
  rewrite run_phase. by destruct (mountStateAfter tr), (hasApiKey g).
Qed.

Lemma run_gates tr :
  gatesOpen g (hooks (run g tr))
  = hasApiKey g
    && match mountStateAfter tr with Notified => true | _ => false end.
Proof.
  destruct (shaped_fields g _ _ (run_shaped g tr)) as (_ & Hr & Hd & _).
  unfold gatesOpen, analyticsDocPath. rewrite Hr, Hd, run_phase.
  by destruct (mountStateAfter tr), (hasApiKey g).
Qed.

Lemma run_writes tr :
  writes (run g tr) = if hasApiKey g then notifiedMounts tr else 0%nat.
Proof.
  induction tr as [|l tr IH] using rev_ind; [by destruct (hasApiKey g)|].
  rewrite run_snoc.
  rewrite (grows_writes g _ _ _ (step_grows g _ _ l (run_shaped g tr))), IH.
  rewrite notifiedMounts_snoc, run_phase.
  destruct (mountStateAfter tr), l as [| |[]], (hasApiKey g); simpl; lia.
Qed.

(** Without an access key the configuration error is on the console for as
    long as the component is mounted. *)
Lemma run_unconfigured_logged tr :
  hasApiKey g = false →
  mounted (run g tr) = true →
  In (ConsoleError "Firebase configuration missing. Cannot initialize Firestore/Auth.")
     (calls (run g tr)).
Proof.
  intros Hk. induction tr as [|l tr IH] using rev_ind; [done|].
  rewrite run_mounted, mountStateAfter_snoc. intros Hm.
  rewrite run_snoc. destruct (mounted (run g tr)) eqn:Hm'.
  - apply (grows_In g _ _ _ _ (step_grows g _ _ l (run_shaped g tr))). auto.
  - destruct l as [| |e].
    + rewrite (mount_idle g _ _ (run_shaped g tr) Hk Hm').
      apply in_or_app. right. by left.
    + done.
    + rewrite run_mounted in Hm'.
      by destruct (mountStateAfter tr), e.
Qed.

Lemma session_userId tr :
  userId (hooks (session g tr)) = if hasApiKey g then lastUser tr else None.
Proof.
  induction tr as [|e tr IH] using rev_ind.
  - destruct (shaped_fields g _ _ (session_shaped g []))
      as (_ & _ & _ & _ & _ & _ & Hrest).
    destruct (Hrest ltac:(simpl; by destruct (hasApiKey g))) as [_ ->].
    by destruct (hasApiKey g).
  - rewrite session_snoc.
    pose proof (session_shaped g tr) as Hs.
    destruct (shaped_fields g _ _ Hs) as (_ & _ & _ & _ & Hal & _ & Hrest).
    destruct (hasApiKey g) eqn:Hk.
    + rewrite (step_userId g _ _ e Hs), lastUser_snoc, IH; [done|].
      rewrite Hal. by destruct (existsb is_notification tr).
    + pose proof (step_shaped g _ _ (Ev e) Hs) as Hs'.
      destruct (shaped_fields g _ _ Hs') as (_ & _ & _ & _ & _ & _ & Hrest').
      by destruct (Hrest' ltac:(by destruct e)) as [_ ->].
Qed.

Lemma step_settled_sign_in ph w ok :
  shaped g ph w → hooks (step g w (Ev (SignInSettled ok))) = hooks w.
Proof. intros Hw. destruct ok; shape_cases g Hw; done. Qed.

End Mounts.

Lemma settle_failure_calls (g : Globals) w n :
  pendingSignIns w = S n →
  calls (step g w (Ev (SignInSettled false)))
  = calls w ++ [ConsoleError "Firebase Auth Error during initialization:"].
Proof. destruct w; simpl; intros ->; done. Qed.

(** ** The scenarios of section 8 of the specification *)

(** Scenario A: no document yet; the first session writes, the store creates
    the document with [count = 1], the listener delivers it. *)
Example scenario_A :
  let w := session configured [AuthStateChanged (Some "anon-1")] in
  let doc := replay None (calls w) in
  doc = Some {[ "count" := VNum 1 ]}
  ∧ viewCount (hooks (step configured w (Ev (Snapshot doc)))) = VNum 1.
Proof. vm_compute. split; reflexivity. Qed.

(** Scenario B: the document holds 41; a new session loads and the mirror of
    a session that listens shows 42. *)
Example scenario_B :
  let w := session configured [AuthStateChanged (Some "anon-2")] in
  let doc := replay (Some {[ "count" := VNum 41 ]}) (calls w) in
  doc = Some {[ "count" := VNum 42 ]}
  ∧ viewCount (hooks (step configured w (Ev (Snapshot doc)))) = VNum 42.
Proof. vm_compute. split; reflexivity. Qed.

(** Scenario C: no access key. *)
Example scenario_C :
  let w := session unconfigured [] in
  calls w = [ConsoleError "Firebase configuration missing. Cannot initialize Firestore/Auth."]
  ∧ isAuthReady (hooks w) = true
  ∧ viewCount (hooks w) = VNum 0.
Proof. vm_compute. repeat split; reflexivity. Qed.

(** Scenario D: the provider reports no user and the sign-in rejects. *)
Example scenario_D :
  let w := session configured [AuthStateChanged None; SignInSettled false] in
  calls w = [InitializeApp; OnAuthStateChanged; SignInAnonymously;
             SetDoc "/artifacts/the-current/public/data/analytics/olhs_current_views"
                    [("count", Increment 1)] true;
             OnSnapshot "/artifacts/the-current/public/data/analytics/olhs_current_views";
             ConsoleError "Firebase Auth Error during initialization:"]
  ∧ isAuthReady (hooks w) = true
  ∧ userId (hooks w) = None
  ∧ isAdmin (hooks w) = false.
Proof. vm_compute. repeat split; reflexivity. Qed.

(** A login with the two literals is accepted, any other is refused, and
    neither asks anything of the provider. *)
Example login_literals :
  let w := session configured [AuthStateChanged None; ClickEditorLogin] in
  let typed e p := step configured
                     (step configured (step configured w (Ev (ChangeEmail e)))
                           (Ev (ChangePassword p)))
                     (Ev SubmitLogin) in
  showLogin (hooks (typed "editor@thecurrent.edu" "password123")) = false
  ∧ showLogin (hooks (typed "editor@thecurrent.edu" "password124")) = true
  ∧ userId (hooks (typed "editor@thecurrent.edu" "password123")) = None.
Proof. vm_compute. repeat split; reflexivity. Qed.

(** * The claims *)

(** Claim C1, amended.  The increment write is issued once per mount that
    gets its gates open, for every mount of a run and not only the first:
    the number of writes of a run is, with an access key, the number of its
    mounts that have had an auth notification before their teardown (a
    mount asked for on a mounted page is none), and 0 without a key, so it
    is at most the number of mounts.  For each single mount, after whatever
    came before: the gates (readiness true and a document path) are open
    exactly from the first auth notification of that mount on, with an
    access key, and stay open until the teardown; the mount has issued one
    write when they are open and none before; and the teardown issues
    none. *)
Theorem increment_once_per_mount (g : Globals) :
  (∀ tr, writes (run g tr) = if hasApiKey g then notifiedMounts tr else 0%nat)
  ∧ (∀ tr, (notifiedMounts tr ≤ countMounts tr)%nat)
  ∧ (∀ tr evs,
       mounted (run g tr) = false →
       let w := run g (tr ++ Mount :: map Ev evs) in
       gatesOpen g (hooks w) = hasApiKey g && existsb is_notification evs
       ∧ writes w
         = (writes (run g tr) + if gatesOpen g (hooks w) then 1 else 0)%nat)
  ∧ (∀ tr, writes (step g (run g tr) Unmount) = writes (run g tr)).
Proof.
  split; [apply run_writes|]. split; [apply notifiedMounts_countMounts|]. split.
  - intros tr evs Hm w.
    assert (mountStateAfter tr = Down) as Hd.
    { rewrite run_mounted in Hm. by destruct (mountStateAfter tr). }
    assert (gatesOpen g (hooks w) = hasApiKey g && existsb is_notification evs)
      as Hg.
    { unfold w. rewrite run_gates, (mountStateAfter_mount tr evs Hd).
      by destruct (existsb is_notification evs). }
    split; [exact Hg|]. rewrite Hg. unfold w.
    rewrite !run_writes, (notifiedMounts_mount tr evs Hd).
    destruct (hasApiKey g), (existsb is_notification evs); simpl; lia.
  - intros tr. rewrite <- run_snoc, !run_writes, notifiedMounts_snoc.
    destruct (hasApiKey g), (mountStateAfter tr); simpl; lia.
Qed.

(** Claim C1 as stated fails: a teardown followed by a new mount issues the
    write a second time. *)
Lemma second_mount_second_write :
  writes (run configured
            [Mount; Ev (AuthStateChanged None); Unmount;
             Mount; Ev (AuthStateChanged None)]) = 2%nat.
Proof. vm_compute. reflexivity. Qed.

(** Claim C2, amended.  For every mount of a run the readiness flag is true
    exactly when the configuration has no access key or an auth-state
    notification has been delivered since that mount, so within a mount it
    goes from false to true at most once and not back before the teardown;
    the settling of the sign-in attempt, resolved or rejected, leaves the
    hook state as it is, in every run. *)
Theorem readiness_follows_first_notification (g : Globals) :
  (∀ tr, isAuthReady (hooks (run g tr))
         = match mountStateAfter tr with
           | Down => false
           | Waiting => negb (hasApiKey g)
           | Notified => true
           end)
  ∧ (∀ tr evs,
       mounted (run g tr) = false →
       isAuthReady (hooks (run g (tr ++ Mount :: map Ev evs)))
       = negb (hasApiKey g) || existsb is_notification evs)
  ∧ (∀ tr ok, hooks (step g (run g tr) (Ev (SignInSettled ok)))
              = hooks (run g tr)).
Proof.
  split; [apply run_ready|]. split.
  - intros tr evs Hm.
    assert (mountStateAfter tr = Down) as Hd.
    { rewrite run_mounted in Hm. by destruct (mountStateAfter tr). }
    rewrite run_ready, (mountStateAfter_mount tr evs Hd).
    by destruct (existsb is_notification evs), (hasApiKey g).
  - intros tr ok. apply (step_settled_sign_in g _ _ ok (run_shaped g tr)).
Qed.

(** Claim C2 as stated fails: the first auth notification makes the flag
    true while the sign-in promise of [attemptAuth] is still pending. *)
Lemma ready_while_sign_in_pending :
  let w := session configured [AuthStateChanged None] in
  isAuthReady (hooks w) = true ∧ pendingSignIns w = 1%nat.
Proof. vm_compute. split; reflexivity. Qed.

(** Claim C3.  The view-tracking write is
    [setDoc(path, { count: increment(1) }, { merge: true })], whatever the
    local state, and every write a run issues is that one; under the store
    model this creates the document with [count = 1] when it is absent and
    adds exactly 1 to a numeric [count], leaving the other fields alone. *)
Theorem increment_write_merge (g : Globals) :
  (∀ path w, emitted w (trackPageView path w)
               [SetDoc path [("count", Increment 1)] true])
  ∧ (∀ tr, Forall (λ c, c = SetDoc (analyticsPath g) [("count", Increment 1)] true)
                  (filter (λ c, is_SetDoc c = true) (calls (run g tr))))
  ∧ Store.setDoc None [("count", Increment 1)] true
    = Some {[ "count" := VNum 1 ]}
  ∧ (∀ (d : gmap string value) n,
       Store.setDoc (Some (<["count" := VNum n]> d)) [("count", Increment 1)] true
       = Some (<["count" := VNum (n + 1)]> d)).
Proof.
  split; [|split; [|split]].
  - by intros path [].
  - apply run_increment.
  - apply setDoc_increment_absent.
  - apply setDoc_increment_present.
Qed.

(** Claim C4, amended.  On a push to the standing listener the mirror
    becomes 0 when the document does not exist, 0 when it exists without a
    [count] field, [N] when [count] is the integer [N], 0 when [count] is
    any other falsy value ([null], [false], [NaN], the empty string), and
    the value of [count] itself when that is truthy, number or not. *)
Theorem mirror_after_push (g : Globals) (tr : list lifecycle) :
  let w := run g tr in
  let pushed doc := viewCount (hooks (step g w (Ev (Snapshot doc)))) in
  snapshotListener w ≠ None →
  pushed None = VNum 0
  ∧ (∀ data, data !! "count" = None → pushed (Some data) = VNum 0)
  ∧ (∀ data n, data !! "count" = Some (VNum n) → pushed (Some data) = VNum n)
  ∧ (∀ data v, data !! "count" = Some v → truthy v = false →
               pushed (Some data) = VNum 0)
  ∧ (∀ data v, data !! "count" = Some v → truthy v = true →
               pushed (Some data) = v).
Proof.
  intros w pushed Hl.
  assert (Hp : ∀ doc, pushed doc = snapshotCount doc).
  { intros doc. by apply (step_push g _ _ doc (run_shaped g tr)). }
  split; [|split; [|split; [|split]]].
  - by rewrite Hp.
  - intros data Hc. rewrite Hp. unfold snapshotCount, Js.or, Js.get.
    by rewrite Hc.
  - intros data n Hc. rewrite Hp. unfold snapshotCount, Js.or, Js.get.
    rewrite Hc. simpl. destruct (Z.eqb_spec n 0); by subst.
  - intros data v Hc Hv. rewrite Hp. unfold snapshotCount, Js.or, Js.get.
    rewrite Hc. simpl. by rewrite Hv.
  - intros data v Hc Hv. rewrite Hp. unfold snapshotCount, Js.or, Js.get.
    rewrite Hc. simpl. by rewrite Hv.
Qed.

(** The theorem at a session that listens, for a document with
    [count = 42]. *)
Lemma mirror_after_push_witness :
  viewCount (hooks (step configured
                      (run configured [Mount; Ev (AuthStateChanged None)])
                      (Ev (Snapshot (Some {[ "count" := VNum 42 ]})))))
  = VNum 42.
Proof.
  refine (proj1 (proj2 (proj2
            (mirror_after_push configured [Mount; Ev (AuthStateChanged None)] _)))
            {[ "count" := VNum 42 ]} 42%Z _).
  - vm_compute. discriminate.
  - vm_compute. reflexivity.
Defined.

(** Claim C4 as stated fails: a [count] that is not a number but truthy is
    stored in the mirror as it is, not replaced by 0. *)
Lemma malformed_count_is_mirrored :
  viewCount (hooks (session configured
                      [AuthStateChanged None;
                       Snapshot (Some {[ "count" := VStr "many" ]})]))
  = VStr "many"
  ∧ VStr "many" ≠ VNum 0.
Proof. split; [vm_compute; reflexivity | discriminate]. Qed.

(** Claim C5.  Without an access key in the store configuration, at every
    point of every run after the first mount, teardowns and new mounts
    included: the configuration error has been logged, the readiness flag of
    the mounted component is true, the mirror is 0, no write has been issued,
    no listener is registered and Firebase has not been called at all. *)
Theorem missing_config_disables_counter (g : Globals) (tr : list lifecycle) :
  hasApiKey g = false →
  let w := run g (Mount :: tr) in
  In (ConsoleError "Firebase configuration missing. Cannot initialize Firestore/Auth.")
     (calls w)
  ∧ (mounted w = true → isAuthReady (hooks w) = true)
  ∧ viewCount (hooks w) = VNum 0
  ∧ writes w = 0%nat
  ∧ snapshotListener w = None
  ∧ authListener w = false
  ∧ Forall (λ c, is_firebase_call c = false) (calls w).
Proof.
  intros Hk w.
  pose proof (run_shaped g (Mount :: tr)) as Hs. fold w in Hs.
  destruct (shaped_fields g _ _ Hs) as (Hm & Hr & _ & _ & Hal & Hsl & Hrest).
  pose proof (run_quiet g (Mount :: tr) Hk) as Hq. fold w in Hq.
  split; [|split; [|split; [|split; [|split; [|split]]]]].
  - apply (run_In g [Mount] tr).
    change (run g [Mount]) with (step g boot Mount).
    rewrite (mount_idle g _ _ (shaped_boot g) Hk eq_refl). by left.
  - rewrite Hm, Hr. by destruct (idle_phase g (Mount :: tr) Hk) as [-> | ->].
  - apply Hrest. by destruct (idle_phase g (Mount :: tr) Hk) as [-> | ->].
  - by apply quiet_writes.
  - rewrite Hsl. by destruct (idle_phase g (Mount :: tr) Hk) as [-> | ->].
  - rewrite Hal. by destruct (idle_phase g (Mount :: tr) Hk) as [-> | ->].
  - done.
Qed.

(** The theorem at the deployment without configuration, for a run with a
    teardown and a second mount. *)
Lemma missing_config_disables_counter_witness :
  let w := run unconfigured
             [Mount; Ev (AuthStateChanged (Some "u1")); Ev (Snapshot None);
              Ev SubmitLogin; Ev (ClickSignOut true); Unmount; Mount] in
  writes w = 0%nat ∧ viewCount (hooks w) = VNum 0 ∧ isAuthReady (hooks w) = true.
Proof.
  pose proof (missing_config_disables_counter unconfigured
    [Ev (AuthStateChanged (Some "u1")); Ev (Snapshot None);
     Ev SubmitLogin; Ev (ClickSignOut true); Unmount; Mount] eq_refl)
    as (_ & Hr & Hv & Hw & _).
  split; [exact Hw|split; [exact Hv|apply Hr; reflexivity]].
Defined.

(** Claim C6, amended.  In a session with an access key in which the
    sign-in promise rejects, the rejection is logged and does nothing else:
    it adds the one console entry and leaves the hook state as it is.
    Readiness and the write follow the provider's notifications alone: the
    flag is true, and the increment has been issued (once), exactly when an
    auth-state notification has been delivered, before or after the
    rejection and with or without a user.  The session identity is the user
    of the last notification and the capability gate says elevated exactly
    when that is a non-empty id; so both say "nobody" when the provider
    reports no user, as the claim has it, and not when it restores one. *)
Theorem bootstrap_failure_is_only_logged (g : Globals) (tr1 tr2 : list event) :
  hasApiKey g = true →
  forallb (λ e, negb (is_settlement e)) tr1 = true →
  let tr := tr1 ++ SignInSettled false :: tr2 in
  let w := session g tr in
  In (ConsoleError "Firebase Auth Error during initialization:") (calls w)
  ∧ calls (session g (tr1 ++ [SignInSettled false]))
    = calls (session g tr1)
      ++ [ConsoleError "Firebase Auth Error during initialization:"]
  ∧ hooks (session g (tr1 ++ [SignInSettled false])) = hooks (session g tr1)
  ∧ isAuthReady (hooks w) = existsb is_notification tr
  ∧ writes w = (if existsb is_notification tr then 1 else 0)%nat
  ∧ userId (hooks w) = lastUser tr
  ∧ isAdmin (hooks w) = truthy_str (lastUser tr)
  ∧ (forallb no_user tr = true →
     userId (hooks w) = None ∧ isAdmin (hooks w) = false).
Proof.
  intros Hk Hpending tr w.
  pose proof (session_pending g tr1 Hk Hpending) as Hp.
  assert (Hc : calls (session g (tr1 ++ [SignInSettled false]))
               = calls (session g tr1)
                 ++ [ConsoleError "Firebase Auth Error during initialization:"]).
  { rewrite session_snoc. by apply (settle_failure_calls g _ 0). }
  assert (Hu : userId (hooks w) = lastUser tr).
  { unfold w. by rewrite session_userId, Hk. }
  split; [|split; [exact Hc|split; [|split; [|split; [|split; [exact Hu|split]]]]]].
  - unfold w, tr. change (tr1 ++ SignInSettled false :: tr2)
      with (tr1 ++ [SignInSettled false] ++ tr2).
    rewrite app_assoc. apply session_In. rewrite Hc.
    apply in_or_app. right. by left.
  - rewrite session_snoc.
    apply (step_settled_sign_in g _ _ false (session_shaped g tr1)).
  - unfold w. by rewrite session_ready, Hk.
  - unfold w. by rewrite session_writes, Hk.
  - unfold isAdmin, isLoggedIn. by rewrite Hu.
  - intros Hn. pose proof (session_anonymous g tr Hn) as Ha. fold w in Ha.
    unfold isAdmin, isLoggedIn. by rewrite Ha.
Qed.

(** The theorem at a session whose initial check reports no user and whose
    anonymous sign-in then rejects. *)
Lemma bootstrap_failure_is_only_logged_witness :
  let w := session configured
             ([AuthStateChanged None] ++ SignInSettled false :: [Snapshot None]) in
  In (ConsoleError "Firebase Auth Error during initialization:") (calls w)
  ∧ isAuthReady (hooks w) = true
  ∧ writes w = 1%nat
  ∧ userId (hooks w) = None
  ∧ isAdmin (hooks w) = false.
Proof.
  pose proof (bootstrap_failure_is_only_logged configured
                [AuthStateChanged None] [Snapshot None] eq_refl eq_refl)
    as (Hl & _ & _ & Hr & Hw & _ & _ & Hn).
  destruct (Hn eq_refl) as [Hu Ha].
  split; [exact Hl|split; [exact Hr|split; [exact Hw|split; [exact Hu|exact Ha]]]].
Defined.

(** Claim C6 as stated fails: the sign-in promise rejects and the failure is
    logged, yet the provider restores a user, so the session identity is
    present and the capability gate says elevated; and while no auth
    notification has come, the rejection leaves readiness false and no write
    issued. *)
Lemma failed_sign_in_with_restored_user :
  (let w := session configured
              [AuthStateChanged (Some "uid-1"); SignInSettled false] in
   In (ConsoleError "Firebase Auth Error during initialization:") (calls w)
   ∧ userId (hooks w) = Some "uid-1"
   ∧ isAdmin (hooks w) = true)
  ∧ (let w := session configured [SignInSettled false] in
     In (ConsoleError "Firebase Auth Error during initialization:") (calls w)
     ∧ isAuthReady (hooks w) = false
     ∧ writes w = 0%nat).
Proof. vm_compute. intuition. Qed.

(** Claim C7.  When readiness is true and the document path is null, which
    a run reaches only without an access key: the configuration error that
    explains the skip is on the console (line 57), no write has been issued
    and nothing at all has been asked of Firebase, and no continuation of
    the run, teardowns and new mounts included, changes that. *)
Theorem skip_without_path (g : Globals) (tr tr' : list lifecycle) :
  isAuthReady (hooks (run g tr)) = true →
  analyticsDocPath g (hooks (run g tr)) = None →
  hasApiKey g = false
  ∧ In (ConsoleError "Firebase configuration missing. Cannot initialize Firestore/Auth.")
       (calls (run g tr))
  ∧ In (ConsoleError "Firebase configuration missing. Cannot initialize Firestore/Auth.")
       (calls (run g (tr ++ tr')))
  ∧ writes (run g (tr ++ tr')) = 0%nat
  ∧ Forall (λ c, is_firebase_call c = false) (calls (run g (tr ++ tr'))).
Proof.
  intros Hr Hp.
  pose proof (run_shaped g tr) as Hs.
  destruct (shaped_fields g _ _ Hs) as (Hm & Hr' & Hd & _).
  pose proof (shaped_key g _ _ Hs) as Hk.
  unfold analyticsDocPath in Hp. rewrite Hd in Hp. rewrite Hr' in Hr.
  destruct (phaseAfter g tr); try done.
  pose proof (run_unconfigured_logged g tr Hk Hm) as Hl.
  split; [exact Hk|]. split; [exact Hl|]. split; [by apply run_In|].
  split; [apply quiet_writes|]; by apply run_quiet.
Qed.

(** The theorem at the deployment without configuration, continued by a
    notification, a teardown and a new mount. *)
Lemma skip_without_path_witness :
  In (ConsoleError "Firebase configuration missing. Cannot initialize Firestore/Auth.")
     (calls (run unconfigured [Mount]))
  ∧ writes (run unconfigured
              ([Mount] ++ [Ev (AuthStateChanged None); Unmount; Mount])) = 0%nat.
Proof.
  pose proof (skip_without_path unconfigured [Mount]
                [Ev (AuthStateChanged None); Unmount; Mount] eq_refl eq_refl)
    as (_ & Hl & _ & Hw & _).
  split; [exact Hl|exact Hw].
Defined.

(** Claim C8.  A login submission leaves the counter subsystem and the
    session identity as they were, asks nothing of Firebase, and is accepted
    exactly when the entered email and password equal the two literals (the
    handler being idle and an auth handle present); a click on "Sign Out"
    leaves the counter subsystem as it was and itself does not touch the
    session identity, which only the provider's notification changes. *)
Theorem mock_login_logout_frame (g : Globals) (tr : list lifecycle) (ok : bool) :
  let w := run g tr in
  loginFrame w (step g w (Ev SubmitLogin))
  ∧ signOutFrame w (step g w (Ev (ClickSignOut ok))).
Proof.
  intros w. split.
  - apply (step_login g _ _ (run_shaped g tr)).
  - apply (step_sign_out g _ _ ok (run_shaped g tr)).
Qed.

(** Claim C9.  Every store write of every run is the increment of [count]
    by 1; the snapshot observer makes no call at all, whether or not the
    document exists, and its error observer makes no store call; so under
    the store model a numeric [count] only grows: after the run it is its
    initial value plus the number of writes. *)
Theorem only_increment_writes (g : Globals) (tr : list lifecycle) :
  let w := run g tr in
  Forall (λ c, c = incrementWrite g) (filter (λ c, is_SetDoc c = true) (calls w))
  ∧ (∀ doc, calls (step g w (Ev (Snapshot doc))) = calls w)
  ∧ counterUntouched w (step g w (Ev SnapshotError))
  ∧ (∀ (d : gmap string value) n,
       replay (Some (<["count" := VNum n]> d)) (calls w)
       = Some (<["count" := VNum (n + Z.of_nat (writes w))]> d)).
Proof.
  intros w. split; [|split; [|split]].
  - apply run_increment.
  - intros doc. apply (step_push_calls g _ _ doc (run_shaped g tr)).
  - apply (step_error g _ _ (run_shaped g tr)).
  - intros d n. apply (replay_increment g), run_increment.
Qed.

(** Claim C10.  From any reachable world with the counter listener
    established, a click on "Sign Out", and the provider's notification of
    the sign-out after it, change neither the mirror nor the listener nor
    anything else of the counter subsystem; a push after either of them sets
    the mirror as before. *)
Theorem sign_out_keeps_mirror (g : Globals) (tr : list lifecycle) (ok : bool)
    (doc : option (gmap string value)) :
  let w := run g tr in
  let w1 := step g w (Ev (ClickSignOut ok)) in
  let w2 := step g w1 (Ev (AuthStateChanged None)) in
  snapshotListener w ≠ None →
  viewCount (hooks w1) = viewCount (hooks w)
  ∧ snapshotListener w1 = snapshotListener w
  ∧ viewCount (hooks w2) = viewCount (hooks w)
  ∧ snapshotListener w2 = snapshotListener w
  ∧ counterUntouched w w1
  ∧ counterUntouched w1 w2
  ∧ userId (hooks w2) = None
  ∧ viewCount (hooks (step g w1 (Ev (Snapshot doc)))) = snapshotCount doc
  ∧ viewCount (hooks (step g w2 (Ev (Snapshot doc)))) = snapshotCount doc.
Proof.
  intros w w1 w2 Hl.
  pose proof (run_shaped g tr) as Hs. fold w in Hs.
  pose proof (step_shaped g _ _ (Ev (ClickSignOut ok)) Hs) as Hs1. fold w1 in Hs1.
  pose proof (step_shaped g _ _ (Ev (AuthStateChanged None)) Hs1) as Hs2. fold w2 in Hs2.
  destruct (step_sign_out g _ _ ok Hs) as (Hc1 & _). fold w1 in Hc1.
  assert (Hlive : phaseAfter g tr = Live).
  { destruct (shaped_fields g _ _ Hs) as (_ & _ & _ & _ & _ & Hsl & _).
    rewrite Hsl in Hl. by destruct (phaseAfter g tr). }
  rewrite Hlive in Hs1, Hs2. simpl in Hs1, Hs2.
  destruct (shaped_fields g _ _ Hs1) as (_ & Hr1 & _ & _ & Hal1 & Hsl1 & _).
  destruct (shaped_fields g _ _ Hs2) as (_ & _ & _ & _ & _ & Hsl2 & _).
  destruct (step_notified g _ _ None Hs1 Hr1) as (Hc2 & Hu2). fold w2 in Hc2, Hu2.
  pose proof (proj1 Hc1) as He1. pose proof (proj1 Hc2) as He2.
  unfold counterState in He1, He2. simplify_eq.
  split; [done|]. split; [done|]. split; [congruence|]. split; [congruence|].
  split; [done|]. split; [done|]. split; [by apply Hu2|]. split.
  - apply (step_push g _ _ doc Hs1). by rewrite Hsl1.
  - apply (step_push g _ _ doc Hs2). by rewrite Hsl2.
Qed.

(** The theorem at a signed-in session whose mirror shows 41. *)
Lemma sign_out_keeps_mirror_witness :
  let w := run configured
             [Mount; Ev (AuthStateChanged (Some "uid-1"));
              Ev (Snapshot (Some {[ "count" := VNum 41 ]}))] in
  let w1 := step configured w (Ev (ClickSignOut true)) in
  let w2 := step configured w1 (Ev (AuthStateChanged None)) in
  viewCount (hooks w2) = viewCount (hooks w)
  ∧ snapshotListener w2 = snapshotListener w.
Proof.
  assert (Hl : snapshotListener
                 (run configured
                    [Mount; Ev (AuthStateChanged (Some "uid-1"));
                     Ev (Snapshot (Some {[ "count" := VNum 41 ]}))]) ≠ None)
    by (vm_compute; discriminate).
  pose proof (sign_out_keeps_mirror configured _ true None Hl)
    as (_ & _ & Hv & Hs & _).
  split; [exact Hv|exact Hs].
Defined.

(** * Properties beside the claims *)


(** Property X2.  Listener hygiene (lines 94 and 134).  In every run each of the
    two observers has been registered exactly once more than released while it
    is standing, and exactly as often as released otherwise; after a teardown
    neither is standing, so nothing registered is left behind. *)
Theorem listeners_released (g : Globals) (tr : list lifecycle) :
  let w := run g tr in
  (countCalls is_OnSnapshot w
   = countCalls is_SnapshotUnsubscribe w
     + match snapshotListener w with Some _ => 1 | None => 0 end)%nat
  ∧ (countCalls is_OnAuthStateChanged w
     = countCalls is_AuthUnsubscribe w + (if authListener w then 1 else 0))%nat
  ∧ (mounted w = false → snapshotListener w = None ∧ authListener w = false).
Proof.
  intros w. destruct (run_listenersBalanced g tr) as [H1 H2].
  split; [exact H1|]. split; [exact H2|].
  intros Hm. destruct (shaped_fields g _ _ (run_shaped g tr))
    as (Hm' & _ & _ & _ & Hal & Hsl & _).
  fold w in Hm', Hal, Hsl. rewrite Hm in Hm'.
  rewrite Hal, Hsl. by destruct (phaseAfter g tr).
Qed.

(** Property X3.  Effects 2 and 3 (lines 99-135) share guard and dependencies:
    in every run the counter listener has been opened exactly as often as the
    increment has been written, and every store call of the component (write,
    subscription, release) addresses the one counter document. *)
Theorem subscription_with_every_write (g : Globals) (tr : list lifecycle) :
  let w := run g tr in
  countCalls is_OnSnapshot w = writes w
  ∧ Forall (λ c, match pathOf c with
                 | Some path => path = analyticsPath g
                 | None => True
                 end) (calls w).
Proof.
  intros w. split.
  - rewrite writes_countCalls. apply run_subscribedWithWrite.
  - apply run_oneDocument.
Qed.

(** Property X4.  The settling of the write (lines 107-110).  In every run each
    write is still pending or has been reported by exactly one console entry,
    success or error; the settling changes no hook state and causes no further
    write. *)
Theorem write_outcome_logged_once (g : Globals) (tr : list lifecycle) :
  let w := run g tr in
  (writes w
   = pendingWrites w + countCalls is_tracked w + countCalls is_trackError w)%nat
  ∧ (∀ ok, hooks (step g w (Ev (SetDocSettled ok))) = hooks w)
  ∧ (∀ ok, writes (step g w (Ev (SetDocSettled ok))) = writes w).
Proof.
  intros w. split; [|split].
  - rewrite writes_countCalls. apply run_writesAccounted.
  - intros ok. apply step_settled_hooks.
  - intros ok. unfold w.
    rewrite (grows_writes g _ _ _
               (step_grows g _ _ (Ev (SetDocSettled ok)) (run_shaped g tr))).
    unfold fired. destruct (phaseAfter g tr); simpl; lia.
Qed.

(** Property X5.  The auth observer (lines 69-77).  In a session with an access
    key the session identity is the user of the provider's last notification,
    absent before the first; without a key it is always absent. *)
Theorem identity_follows_provider (g : Globals) (tr : list event) :
  userId (hooks (session g tr)) = if hasApiKey g then lastUser tr else None.
Proof.
  induction tr as [|e tr IH] using rev_ind.
  - destruct (shaped_fields g _ _ (session_shaped g []))
      as (_ & _ & _ & _ & _ & _ & Hrest).
    destruct (Hrest ltac:(simpl; by destruct (hasApiKey g))) as [_ ->].
    by destruct (hasApiKey g).
  - rewrite session_snoc.
    pose proof (session_shaped g tr) as Hs.
    destruct (shaped_fields g _ _ Hs) as (_ & _ & _ & _ & Hal & _ & Hrest).
    destruct (hasApiKey g) eqn:Hk.
    + rewrite (step_userId g _ _ e Hs), lastUser_snoc, IH; [done|].
      rewrite Hal. by destruct (existsb is_notification tr).
    + pose proof (step_shaped g _ _ (Ev e) Hs) as Hs'.
      destruct (shaped_fields g _ _ Hs') as (_ & _ & _ & _ & _ & _ & Hrest').
      by destruct (Hrest' ltac:(by destruct e)) as [_ ->].
Qed.

(** Property X6.  The mirror (lines 120-132 against the rest).  One event
    changes the mirror only if it is a push to the standing listener, and then
    the mirror becomes what the observer computes from the snapshot; the outcome
    of the write, a listener error, auth notifications, the login form and
    sign-out leave it as it is. *)
Theorem mirror_changes_only_by_push (g : Globals) (tr : list lifecycle)
    (e : event) :
  let w := run g tr in
  viewCount (hooks (step g w (Ev e)))
  = match e, snapshotListener w with
    | Snapshot doc, Some _ => snapshotCount doc
    | _, _ => viewCount (hooks w)
    end.
Proof.
  intros w. pose proof (run_shaped g tr) as Hs. fold w in Hs.
  destruct (is_push e) eqn:He.
  - destruct e as [| | |doc| | | | | | |]; try discriminate.
    destruct (snapshotListener w) eqn:Hl.
    + apply (step_push g _ _ doc Hs). by rewrite Hl.
    + by rewrite (push_unheard g w doc Hl).
  - rewrite (step_mirror_frame g _ _ e Hs He). by destruct e.
Qed.

(** Property X7.  The values of the mirror (lines 42, 123 and 126).  In every
    run the mirror is a number or a truthy value: it is never [undefined],
    [null], [false], [NaN] or the empty string, so [viewCount.toLocaleString()]
    in the footer has a receiver: the call is that of a primitive, or is left
    to the object the mirror holds. *)
Theorem mirror_always_displayable (g : Globals) (tr : list lifecycle) :
  let v := viewCount (hooks (run g tr)) in
  mirrored v = true
  ∧ match v with
    | VUndefined | VNull | VNaN | VBool false => False
    | VStr text => text ≠ ""
    | VBool true | VNum _ | VObject => True
    end
  ∧ View.toLocaleString v = Some (View.localeText v).
Proof.
  intros v. destruct (run_presentable g tr) as [_ Hv]. fold v in Hv.
  split; [exact Hv|]. split; destruct v as [| |[]| | |text|]; try done.
  simpl in Hv. intros ->. done.
Qed.

(** Property X8.  What [App] returns on a run (lines 183-411).  On the hook
    state of every run neither method call of the returned element lacks a
    receiver ([userId.substring] is reached only with a string,
    [viewCount.toLocaleString] never with [undefined] or [null]), and the
    element is the following page: the header is the admin bar, built from
    [userId.substring(0, 8)], exactly when the dashboard is there, which is
    when a non-empty user id is held; the dashboard then shows the text of
    the mirror, never "Loading...", and the user id, never the "N/A"
    fallback; the footer shows the text of the mirror; and the submit button
    of the login form is never disabled and always reads "Sign In".  The text
    of a mirror that holds an object is left to that object. *)
Theorem render_of_a_run (g : Globals) (tr : list lifecycle) :
  let s := hooks (run g tr) in
  View.render s
  = Some {| View.header :=
              if isAdmin s
              then View.AdminBar (View.Substring (default "" (userId s)) 0 8)
              else View.EditorLoginButton;
            View.dashboard :=
              if isAdmin s
              then Some {| View.totalPageViews :=
                             View.Formatted (View.localeText (viewCount s));
                           View.loggedInUser := default "" (userId s) |}
              else None;
            View.footerCount := View.localeText (viewCount s);
            View.loginPage :=
              if showLogin s
              then Some {| View.emailInput := loginEmail s;
                           View.passwordInput := loginPassword s;
                           View.submitDisabled := false;
                           View.submitLabel := "Sign In" |}
              else None |}.
Proof.
  intros s.
  destruct (mirror_values g tr) as [Hli Hfmt]. fold s in Hli, Hfmt.
  pose proof (admin_is_ready g tr) as Hr. fold s in Hr.
  unfold View.render, View.Header, View.AdminDashboard, View.LoginPage.
  rewrite Hfmt, Hli.
  destruct (isAdmin s) eqn:Ha; [|done].
  rewrite (Hr eq_refl).
  unfold isAdmin, isLoggedIn in Ha. rewrite Ha.
  by destruct (userId s).
Qed.

(** Property X9.  The login form (lines 141-167).  From every reachable world a
    submission is answered by exactly one toast, the "successful" one when both
    entries equal the literals and the "Invalid credentials" one otherwise,
    provided the component is mounted with an access key; without a key the
    submission is dropped without any toast.  The handler's own busy guard never
    drops one, since the busy flag is false in every reachable world. *)
Theorem login_always_answered (g : Globals) (tr : list lifecycle) :
  let w := run g tr in
  isLoggingIn (hooks w) = false
  ∧ answered w (step g w (Ev SubmitLogin))
      (if mounted w && hasApiKey g
       then [if String.eqb (loginEmail (hooks w)) MOCK_ADMIN_EMAIL
                && String.eqb (loginPassword (hooks w)) MOCK_ADMIN_PASSWORD
             then loginToast else invalidToast]
       else []).
Proof.
  intros w. destruct (run_presentable g tr) as [Hli _]. fold w in Hli.
  split; [exact Hli|]. by apply (step_answered g _ _ (run_shaped g tr)).
Qed.

(** Property X10.  A new mount (lines 38-46 and 55-95).  Whatever happened
    before, a teardown followed by a mount leaves the component exactly as the
    first mount of the page does: the same hook values, effect dependencies and
    listeners; nothing of the earlier instance is carried over but the record of
    calls and the promises still in flight. *)
Theorem remount_starts_afresh (g : Globals) (tr : list lifecycle) :
  instance (run g (tr ++ [Unmount; Mount])) = instance (session g []).
Proof.
  change (tr ++ [Unmount; Mount]) with (tr ++ [Unmount] ++ [Mount]).
  rewrite app_assoc, !run_snoc.
  apply (remount_instance g _ _ (run_shaped g tr)).
Qed.

(** Property X11.  After a teardown (lines 94 and 134).  While the component is
    unmounted, auth notifications, snapshot pushes and errors, and the controls
    of the page leave the world exactly as it is: no state is set and no call is
    made; only a promise still in flight can add its console entry. *)
Theorem inert_after_teardown (g : Globals) (tr : list lifecycle) (e : event) :
  mounted (run g tr) = false →
  is_promise e = false →
  step g (run g tr) (Ev e) = run g tr.
Proof. apply (step_inert g _ _ e (run_shaped g tr)). Qed.

(** The theorem after a mount, a notification and a teardown, for a late
    notification. *)
Lemma inert_after_teardown_witness :
  step configured
       (run configured [Mount; Ev (AuthStateChanged (Some "uid-1")); Unmount])
       (Ev (AuthStateChanged None))
  = run configured [Mount; Ev (AuthStateChanged (Some "uid-1")); Unmount].
Proof.
  apply (inert_after_teardown configured
           [Mount; Ev (AuthStateChanged (Some "uid-1")); Unmount]
           (AuthStateChanged None)); reflexivity.
Defined.

(** ** The login form *)

Section Form.

Variable g : Globals.

Lemma step_fields ph w e :
  shaped g ph w →
  mounted w = true →
  loginEmail (hooks (step g w (Ev e)))
  = match e with ChangeEmail text => text | _ => loginEmail (hooks w) end
  ∧ loginPassword (hooks (step g w (Ev e)))
    = match e with ChangePassword text => text | _ => loginPassword (hooks w) end.
Proof. intros Hw. event_cases g Hw e; done. Qed.

Lemma mount_fields ph w :
  shaped g ph w →
  mounted w = false →
  loginEmail (hooks (step g w Mount)) = ""
  ∧ loginPassword (hooks (step g w Mount)) = "".
Proof. intros Hw. shape_cases g Hw; done. Qed.

Lemma lastEmail_snoc tr e :
  lastEmail (tr ++ [e])
  = match e with ChangeEmail text => text | _ => lastEmail tr end.
Proof. unfold lastEmail. by rewrite foldl_snoc. Qed.

Lemma lastPassword_snoc tr e :
  lastPassword (tr ++ [e])
  = match e with ChangePassword text => text | _ => lastPassword tr end.
Proof. unfold lastPassword. by rewrite foldl_snoc. Qed.

Lemma step_showLogin ph w e :
  shaped g ph w →
  isLoggingIn (hooks w) = false →
  showLogin (hooks (step g w (Ev e)))
  = match e with
    | ClickEditorLogin => mounted w
    | ClickCancel => false
    | SubmitLogin =>
        showLogin (hooks w)
        && negb (hasApiKey g
                 && String.eqb (loginEmail (hooks w)) MOCK_ADMIN_EMAIL
                 && String.eqb (loginPassword (hooks w)) MOCK_ADMIN_PASSWORD)
    | ClickSignOut ok => showLogin (hooks w) && negb (hasApiKey g && ok)
    | _ => showLogin (hooks w)
    end.
Proof.
  intros Hw. event_cases g Hw e; simpl; intros; simplify_eq;
    rewrite ?andb_true_r, ?andb_false_r; try done.
Qed.

End Form.

(** Property X12.  The login form keeps what was typed (lines 43-44, 248 and
    260).  In a session the email and the password field hold the last text
    typed into them, empty before the first: neither an accepted or refused
    login, nor a sign-out, nor closing the form clears them. *)
Theorem form_fields_hold_last_input (g : Globals) (tr : list event) :
  loginEmail (hooks (session g tr)) = lastEmail tr
  ∧ loginPassword (hooks (session g tr)) = lastPassword tr.
Proof.
  induction tr as [|e tr [IHe IHp]] using rev_ind;
    [by apply (mount_fields g _ _ (shaped_boot g))|].
  rewrite session_snoc, lastEmail_snoc, lastPassword_snoc.
  pose proof (session_shaped g tr) as Hs.
  destruct (shaped_fields g _ _ Hs) as (Hm & _).
  destruct (step_fields g _ _ e Hs) as [-> ->].
  - rewrite Hm. by destruct (hasApiKey g), (existsb is_notification tr).
  - by rewrite IHe, IHp.
Qed.

(** Property X13.  When the login form shows (lines 46, 160, 174, 198 and 277).
    After one event of a run the form is open exactly in these cases: "Editor
    Login" was clicked on a mounted page; or it was open before and the event
    was neither "Cancel", nor a submission accepted (access key and both
    literals), nor a sign-out that was carried out and fulfilled.  A refused
    login and a failed sign-out leave it open. *)
Theorem login_form_visibility (g : Globals) (tr : list lifecycle) (e : event) :
  let w := run g tr in
  showLogin (hooks (step g w (Ev e)))
  = match e with
    | ClickEditorLogin => mounted w
    | ClickCancel => false
    | SubmitLogin =>
        showLogin (hooks w)
        && negb (hasApiKey g
                 && String.eqb (loginEmail (hooks w)) MOCK_ADMIN_EMAIL
                 && String.eqb (loginPassword (hooks w)) MOCK_ADMIN_PASSWORD)
    | ClickSignOut ok => showLogin (hooks w) && negb (hasApiKey g && ok)
    | _ => showLogin (hooks w)
    end.
Proof.
  intros w. destruct (run_presentable g tr) as [Hli _].
  by apply (step_showLogin g _ _ e (run_shaped g tr)).
Qed.

(** ** The toasts *)

Section Toasts.

Lemma domRun_snoc d evs e :
  Dom.domRun d (evs ++ [e]) = Dom.domStep (Dom.domRun d evs) e.
Proof. unfold Dom.domRun. by rewrite foldl_snoc. Qed.

Lemma domRun_app d evs evs' :
  Dom.domRun d (evs ++ evs') = Dom.domRun (Dom.domRun d evs) evs'.
Proof. unfold Dom.domRun. by rewrite foldl_app. Qed.

Lemma domStep_wellFormed d e :
  Dom.wellFormed d → Dom.wellFormed (Dom.domStep d e).
Proof.
  intros Hwf. destruct e as [message isError|id|id]; simpl.
  - unfold Dom.showToast. destruct (Dom.toastContainer d) as [kids|] eqn:Hc;
      [|done]. destruct Hwf as (Hkids & Hdom & Htime).
    rewrite Hc in Hkids. simpl in Hkids.
    split; [|split]; simpl.
    + intros id [<-|Hin]; [lia|]. specialize (Hkids id Hin). lia.
    + intros id. destruct (decide (Dom.nextId d = id)) as [<-|Hne]; [lia|].
      rewrite lookup_insert_ne by done. intros H. specialize (Hdom id H). lia.
    + intros id Hin. apply in_app_or in Hin as [Hin|[<-|[]]].
      * destruct (decide (Dom.nextId d = id)) as [<-|Hne].
        -- rewrite lookup_insert_eq. eauto.
        -- rewrite lookup_insert_ne by done. auto.
      * rewrite lookup_insert_eq. eauto.
  - unfold Dom.onTimeout. case_bool_decide; [|done].
    destruct Hwf as (Hkids & Hdom & Htime).
    split; [|split]; simpl.
    + done.
    + intros j. destruct (decide (id = j)) as [<-|Hne].
      * rewrite lookup_alter_eq. intros [t Ht].
        destruct (Dom.elements d !! id) eqn:He; [|done]. apply Hdom. by rewrite He.
      * rewrite lookup_alter_ne by done. auto.
    + intros j Hin. apply List.filter_In in Hin as [Hin Hj].
      apply negb_true_iff, Nat.eqb_neq in Hj.
      rewrite lookup_alter_ne by done. auto.
  - unfold Dom.onTransitionEnd.
    destruct (Dom.elements d !! id) as [t|]; [|done].
    destruct (Dom.transitionEndListeners t); [done|].
    destruct Hwf as (Hkids & Hdom & Htime).
    split; [|split]; simpl; try done.
    intros j. destruct (Dom.toastContainer d) as [kids|]; simpl in *; [|done].
    intros Hin. apply List.filter_In in Hin as [Hin _]. auto.
Qed.

Lemma domRun_wellFormed d evs :
  Dom.wellFormed d → Dom.wellFormed (Dom.domRun d evs).
Proof.
  intros Hd. induction evs as [|e evs IH] using rev_ind; [done|].
  rewrite domRun_snoc. by apply domStep_wellFormed.
Qed.

Lemma newDocument_wellFormed c : Dom.wellFormed (Dom.newDocument c).
Proof.
  split; [|split]; simpl.
  - by destruct c.
  - intros id. rewrite lookup_empty. by intros [? ?].
  - done.
Qed.


Lemma domRun_no_container evs :
  Dom.domRun (Dom.newDocument false) evs = Dom.newDocument false.
Proof.
  induction evs as [|e evs IH] using rev_ind; [done|].
  rewrite domRun_snoc, IH. by destruct e.
Qed.

Lemma domStep_container d e :
  is_Some (Dom.toastContainer (Dom.domStep d e))
  ↔ is_Some (Dom.toastContainer d).
Proof.
  destruct e as [message isError|id|id]; simpl.
  - unfold Dom.showToast. destruct (Dom.toastContainer d) eqn:Hc; simpl.
    + split; eauto.
    + by rewrite Hc.
  - unfold Dom.onTimeout. by case_bool_decide.
  - unfold Dom.onTransitionEnd.
    destruct (Dom.elements d !! id) as [t|]; [|done].
    destruct (Dom.transitionEndListeners t); [done|]. simpl.
    destruct (Dom.toastContainer d); split; intros [? ?]; eauto; done.
Qed.

Lemma domRun_container d evs :
  is_Some (Dom.toastContainer (Dom.domRun d evs))
  ↔ is_Some (Dom.toastContainer d).
Proof.
  induction evs as [|e evs IH] using rev_ind; [done|].
  by rewrite domRun_snoc, domStep_container.
Qed.

Lemma omap_insert_new (els : gmap nat Dom.Toast) n t kids :
  (∀ id, In id kids → id < n) →
  omap (λ id, Dom.textContent <$> <[n:=t]> els !! id) kids
  = omap (λ id, Dom.textContent <$> els !! id) kids.
Proof.
  induction kids as [|k kids IH]; intros Hk; [done|].
  assert (omap (λ id, Dom.textContent <$> <[n:=t]> els !! id) kids
          = omap (λ id, Dom.textContent <$> els !! id) kids) as IH'.
  { apply IH. intros id Hin. apply Hk. by right. }
  cbn [omap list_omap]. fold (@omap list _ nat string).
  rewrite lookup_insert_ne by (specialize (Hk k (or_introl eq_refl)); lia).
  by rewrite IH'.
Qed.

Lemma showToast_displayed d message isError :
  Dom.wellFormed d →
  Dom.displayed (Dom.showToast message isError d)
  = match Dom.toastContainer d with
    | Some _ => message :: Dom.displayed d
    | None => Dom.displayed d
    end.
Proof.
  intros (Hkids & _ & _). unfold Dom.showToast, Dom.displayed.
  destruct (Dom.toastContainer d) as [kids|] eqn:Hc; [|by rewrite Hc].
  simpl in *.
  rewrite lookup_insert_eq. simpl. f_equal. by apply omap_insert_new.
Qed.

Lemma onDisplay_In id d :
  Dom.onDisplay id d = true ↔ In id (default [] (Dom.toastContainer d)).
Proof.
  unfold Dom.onDisplay. rewrite existsb_exists. split.
  - intros (j & Hin & Hj). apply Nat.eqb_eq in Hj. by subst.
  - intros Hin. exists id. split; [done|]. apply Nat.eqb_refl.
Qed.

Lemma displayed_In id d t :
  In id (default [] (Dom.toastContainer d)) →
  Dom.elements d !! id = Some t →
  In (Dom.textContent t) (Dom.displayed d).
Proof.
  intros Hin Ht. apply list_elem_of_In. unfold Dom.displayed.
  apply list_elem_of_omap. exists id. split.
  - by apply list_elem_of_In.
  - by rewrite Ht.
Qed.

(** An element whose timeout has not been due stays where it is. *)
Lemma domStep_fresh id d e :
  Dom.is_TimerDue id e = false →
  Dom.fresh id d → Dom.fresh id (Dom.domStep d e).
Proof.
  intros He (Hin & (t & Ht & Hl) & Hlt).
  destruct e as [message isError|j|j]; simpl in *.
  - unfold Dom.showToast.
    destruct (Dom.toastContainer d) as [kids|]; [|done]. simpl in *.
    split; [by right|]. split; [|simpl; lia].
    exists t. simpl. by rewrite lookup_insert_ne by lia.
  - apply Nat.eqb_neq in He. unfold Dom.onTimeout. case_bool_decide.
    + split; [done|]. split; [|done].
      exists t. simpl. by rewrite lookup_alter_ne by done.
    + split; [done|]. split; [|done]. eauto.
  - unfold Dom.onTransitionEnd.
    destruct (Dom.elements d !! j) as [t'|] eqn:Hj;
      [|split; [done|]; split; [|done]; eauto].
    destruct (Dom.transitionEndListeners t') eqn:Hl';
      [split; [done|]; split; [|done]; eauto|].
    assert (j ≠ id) as Hne by (intros ->; congruence).
    split; [|split; [|done]; simpl; eauto].
    simpl. destruct (Dom.toastContainer d) as [kids|]; [|done]. simpl in *.
    apply List.filter_In. split; [done|].
    apply negb_true_iff, Nat.eqb_neq. congruence.
Qed.

(** Without a [transitionend] of its own an element is not removed. *)
Lemma domStep_child id d e :
  Dom.is_TransitionEnd id e = false →
  In id (default [] (Dom.toastContainer d)) ∧ id < Dom.nextId d →
  In id (default [] (Dom.toastContainer (Dom.domStep d e)))
  ∧ id < Dom.nextId (Dom.domStep d e).
Proof.
  intros He [Hin Hlt]. destruct e as [message isError|j|j]; simpl in *.
  - unfold Dom.showToast.
    destruct (Dom.toastContainer d) as [kids|]; [|done]. simpl in *.
    split; [by right|lia].
  - unfold Dom.onTimeout. by case_bool_decide.
  - apply Nat.eqb_neq in He. unfold Dom.onTransitionEnd.
    destruct (Dom.elements d !! j) as [t'|]; [|done].
    destruct (Dom.transitionEndListeners t'); [done|].
    split; [|done]. simpl.
    destruct (Dom.toastContainer d) as [kids|]; [|done]. simpl in *.
    apply List.filter_In. split; [done|].
    apply negb_true_iff, Nat.eqb_neq. congruence.
Qed.

(** No callback changes the text of an element that exists. *)
Lemma domStep_text id d e t :
  id < Dom.nextId d →
  Dom.elements d !! id = Some t →
  ∃ t', Dom.elements (Dom.domStep d e) !! id = Some t'
        ∧ Dom.textContent t' = Dom.textContent t.
Proof.
  intros Hlt Ht. destruct e as [message isError|j|j]; simpl.
  - unfold Dom.showToast. destruct (Dom.toastContainer d); [|eauto].
    simpl. rewrite lookup_insert_ne by lia. eauto.
  - unfold Dom.onTimeout. case_bool_decide; [|eauto]. simpl.
    destruct (decide (j = id)) as [->|Hne].
    + rewrite lookup_alter_eq, Ht. simpl. eauto.
    + rewrite lookup_alter_ne by done. eauto.
  - unfold Dom.onTransitionEnd. rewrite Ht || idtac.
    destruct (Dom.elements d !! j) as [t'|]; [|eauto].
    destruct (Dom.transitionEndListeners t'); eauto.
Qed.

Lemma domStep_nextId d e :
  (Dom.nextId d <= Dom.nextId (Dom.domStep d e))%nat.
Proof.
  destruct e as [message isError|j|j]; simpl.
  - unfold Dom.showToast. destruct (Dom.toastContainer d); simpl; lia.
  - unfold Dom.onTimeout. by case_bool_decide.
  - unfold Dom.onTransitionEnd.
    destruct (Dom.elements d !! j) as [t'|]; [|done].
    by destruct (Dom.transitionEndListeners t').
Qed.

Lemma domRun_text id d evs t :
  id < Dom.nextId d →
  Dom.elements d !! id = Some t →
  id < Dom.nextId (Dom.domRun d evs)
  ∧ ∃ t', Dom.elements (Dom.domRun d evs) !! id = Some t'
          ∧ Dom.textContent t' = Dom.textContent t.
Proof.
  intros Hlt Ht. induction evs as [|e evs [IHlt (t' & IH & Heq)]] using rev_ind;
    [eauto|].
  rewrite domRun_snoc. split.
  - pose proof (domStep_nextId (Dom.domRun d evs) e). lia.
  - destruct (domStep_text id _ e t' IHlt IH) as (t'' & ? & ?).
    exists t''. split; [done|congruence].
Qed.

Lemma domRun_fresh id d evs :
  existsb (Dom.is_TimerDue id) evs = false →
  Dom.fresh id d → Dom.fresh id (Dom.domRun d evs).
Proof.
  intros He Hd. induction evs as [|e evs IH] using rev_ind; [done|].
  rewrite existsb_app in He. apply orb_false_iff in He as [He1 He2].
  simpl in He2. apply orb_false_iff in He2 as [He2 _].
  rewrite domRun_snoc. apply domStep_fresh; auto.
Qed.

Lemma domRun_child id d evs :
  existsb (Dom.is_TransitionEnd id) evs = false →
  In id (default [] (Dom.toastContainer d)) ∧ id < Dom.nextId d →
  In id (default [] (Dom.toastContainer (Dom.domRun d evs)))
  ∧ id < Dom.nextId (Dom.domRun d evs).
Proof.
  intros He Hd. induction evs as [|e evs IH] using rev_ind; [done|].
  rewrite existsb_app in He. apply orb_false_iff in He as [He1 He2].
  simpl in He2. apply orb_false_iff in He2 as [He2 _].
  rewrite domRun_snoc. apply domStep_child; auto.
Qed.

(** Once its timeout has been due an element is transparent and listens for
    [transitionend], whatever follows. *)
Lemma domStep_faded id d e :
  (id < Dom.nextId d
   ∧ ∃ t, Dom.elements d !! id = Some t
          ∧ Dom.opacity t = Some "0"
          ∧ Dom.transitionEndListeners t ≠ 0) →
  id < Dom.nextId (Dom.domStep d e)
  ∧ ∃ t, Dom.elements (Dom.domStep d e) !! id = Some t
         ∧ Dom.opacity t = Some "0"
         ∧ Dom.transitionEndListeners t ≠ 0.
Proof.
  intros (Hlt & t & Ht & Ho & Hl).
  destruct e as [message isError|j|j]; simpl.
  - unfold Dom.showToast. destruct (Dom.toastContainer d); [|eauto 6].
    simpl. split; [lia|]. rewrite lookup_insert_ne by lia. eauto.
  - unfold Dom.onTimeout. case_bool_decide; [|eauto 6]. simpl.
    split; [done|]. destruct (decide (j = id)) as [->|Hne].
    + rewrite lookup_alter_eq, Ht. simpl. eexists. split; [done|]. simpl.
      split; [done|lia].
    + rewrite lookup_alter_ne by done. eauto.
  - unfold Dom.onTransitionEnd.
    destruct (Dom.elements d !! j) as [t'|]; [|eauto 6].
    destruct (Dom.transitionEndListeners t'); simpl; eauto 6.
Qed.

(** An element that has been removed does not come back. *)
Lemma domStep_gone id d e :
  id < Dom.nextId d ∧ ¬ In id (default [] (Dom.toastContainer d)) →
  id < Dom.nextId (Dom.domStep d e)
  ∧ ¬ In id (default [] (Dom.toastContainer (Dom.domStep d e))).
Proof.
  intros [Hlt Hin]. destruct e as [message isError|j|j]; simpl.
  - unfold Dom.showToast.
    destruct (Dom.toastContainer d) as [kids|] eqn:Hc; [|by rewrite Hc].
    simpl in *. split; [lia|]. intros [?|?]; [lia|done].
  - unfold Dom.onTimeout. by case_bool_decide.
  - unfold Dom.onTransitionEnd.
    destruct (Dom.elements d !! j) as [t'|]; [|done].
    destruct (Dom.transitionEndListeners t'); [done|]. simpl.
    split; [done|].
    destruct (Dom.toastContainer d) as [kids|]; [|done]. simpl in *.
    intros H. apply List.filter_In in H as [? _]. done.
Qed.

Lemma domRun_faded id d evs :
  (id < Dom.nextId d
   ∧ ∃ t, Dom.elements d !! id = Some t
          ∧ Dom.opacity t = Some "0"
          ∧ Dom.transitionEndListeners t ≠ 0) →
  id < Dom.nextId (Dom.domRun d evs)
  ∧ ∃ t, Dom.elements (Dom.domRun d evs) !! id = Some t
         ∧ Dom.opacity t = Some "0"
         ∧ Dom.transitionEndListeners t ≠ 0.
Proof.
  intros Hd. induction evs as [|e evs IH] using rev_ind; [done|].
  rewrite domRun_snoc. by apply domStep_faded.
Qed.

Lemma domRun_gone id d evs :
  id < Dom.nextId d ∧ ¬ In id (default [] (Dom.toastContainer d)) →
  id < Dom.nextId (Dom.domRun d evs)
  ∧ ¬ In id (default [] (Dom.toastContainer (Dom.domRun d evs))).
Proof.
  intros Hd. induction evs as [|e evs IH] using rev_ind; [done|].
  rewrite domRun_snoc. by apply domStep_gone.
Qed.

Lemma onTimeout_faded id d :
  Dom.wellFormed d → In id (Dom.timeouts d) →
  id < Dom.nextId (Dom.onTimeout id d)
  ∧ ∃ t, Dom.elements (Dom.onTimeout id d) !! id = Some t
         ∧ Dom.opacity t = Some "0"
         ∧ Dom.transitionEndListeners t ≠ 0.
Proof.
  intros (_ & Hdom & Htime) Hin. destruct (Htime id Hin) as [t Ht].
  unfold Dom.onTimeout. rewrite bool_decide_eq_true_2 by by apply list_elem_of_In.
  simpl. split; [apply Hdom; eauto|].
  rewrite lookup_alter_eq, Ht. simpl. eexists. split; [done|]. simpl.
  split; [done|lia].
Qed.

Lemma onTransitionEnd_gone id d :
  (id < Dom.nextId d
   ∧ ∃ t, Dom.elements d !! id = Some t
          ∧ Dom.opacity t = Some "0"
          ∧ Dom.transitionEndListeners t ≠ 0) →
  Dom.onTransitionEnd id d = Dom.remove id d.
Proof.
  intros (_ & t & Ht & _ & Hl). unfold Dom.onTransitionEnd. rewrite Ht.
  by destruct (Dom.transitionEndListeners t).
Qed.

Lemma remove_gone id d :
  ¬ In id (default [] (Dom.toastContainer (Dom.remove id d))).
Proof.
  simpl. destruct (Dom.toastContainer d) as [kids|]; simpl; [|tauto].
  intros H. apply List.filter_In in H as [_ H].
  by rewrite Nat.eqb_refl in H.
Qed.


(** Property X14.  [showToast], lines 18-33: in a document with
    [#toast-container], whatever toasts, timeouts and transitions came before, a
    call puts its message on top of the texts in the container, above all the
    earlier ones, as a new child; in a document without the container the call
    and every callback leave the document as it is. *)
Theorem toasts_stack_newest_first (container : bool) evs message isError :
  let d := Dom.domRun (Dom.newDocument container) evs in
  let d' := Dom.showToast message isError d in
  Dom.displayed d' = (if container then message :: Dom.displayed d else [])
  ∧ Dom.onDisplay (Dom.nextId d) d' = container
  ∧ Dom.onDisplay (Dom.nextId d) d = false
  ∧ (if container then Dom.nextId d' = S (Dom.nextId d)
     else d' = Dom.newDocument false).
Proof.
  intros d d'. destruct container.
  - assert (Dom.wellFormed d) as Hwf
      by apply domRun_wellFormed, newDocument_wellFormed.
    assert (is_Some (Dom.toastContainer d)) as [kids Hc]
      by (apply domRun_container; simpl; eauto).
    assert (Dom.onDisplay (Dom.nextId d) d = false) as Hnew.
    { destruct (Dom.onDisplay (Dom.nextId d) d) eqn:Hd; [|done].
      apply onDisplay_In in Hd. destruct Hwf as (Hkids & _ & _).
      specialize (Hkids _ Hd). lia. }
    subst d'. rewrite showToast_displayed by done. rewrite Hc.
    split; [done|]. split; [|split; [done|]].
    + apply onDisplay_In. unfold Dom.showToast. rewrite Hc. simpl. by left.
    + unfold Dom.showToast. by rewrite Hc.
  - subst d' d. by rewrite domRun_no_container.
Qed.

(** Property X15.  [showToast], lines 26-32: a toast leaves the container only
    after its own timeout and a [transitionend] event of its own.  While one of
    the two has not happened it is still a child of the container and its text
    is among the texts in the container, whatever happens to the other toasts. *)
Theorem toast_stays_until_faded evs message isError evs' :
  let d := Dom.domRun (Dom.newDocument true) evs in
  let id := Dom.nextId d in
  let d' := Dom.domRun (Dom.showToast message isError d) evs' in
  existsb (Dom.is_TimerDue id) evs'
  && existsb (Dom.is_TransitionEnd id) evs' = false →
  Dom.onDisplay id d' = true ∧ In message (Dom.displayed d').
Proof.
  intros d id d' Hevs.
  assert (is_Some (Dom.toastContainer d)) as [kids Hc]
    by (apply domRun_container; simpl; eauto).
  set (d1 := Dom.showToast message isError d) in *.
  set (toast := {| Dom.className := Dom.toastClass isError;
                   Dom.textContent := message;
                   Dom.opacity := None;
                   Dom.transitionEndListeners := 0 |}).
  assert (Dom.toastContainer d1 = Some (id :: kids)) as Hc1
    by (unfold d1, Dom.showToast; by rewrite Hc).
  assert (Dom.elements d1 !! id = Some toast) as Ht1
    by (unfold d1, Dom.showToast; rewrite Hc; simpl; apply lookup_insert_eq).
  assert (id < Dom.nextId d1) as Hlt1
    by (unfold d1, Dom.showToast; rewrite Hc; simpl; lia).
  destruct (domRun_text id d1 evs' toast Hlt1 Ht1) as (_ & t' & Ht' & Htext).
  assert (In id (default [] (Dom.toastContainer d'))) as Hin.
  { apply andb_false_iff in Hevs as [Hevs|Hevs].
    - apply (domRun_fresh id d1 evs' Hevs). split; [|split; [|done]].
      + rewrite Hc1. by left.
      + by exists toast.
    - apply (domRun_child id d1 evs' Hevs). split; [|done].
      rewrite Hc1. by left. }
  split; [by apply onDisplay_In|].
  simpl in Htext. rewrite <- Htext. by apply (displayed_In id).
Qed.

Lemma toast_stays_until_faded_witness :
  let evs := [Dom.Toasting "Signed out successfully. Viewing as public." false] in
  let evs' := [Dom.TimerDue 1; Dom.TransitionEnd 0; Dom.TimerDue 0;
               Dom.Toasting "Signed out successfully. Viewing as public." false] in
  let d' := Dom.domRun (Dom.showToast "Sign out failed." true
                          (Dom.domRun (Dom.newDocument true) evs)) evs' in
  Dom.onDisplay 1 d' = true ∧ In "Sign out failed." (Dom.displayed d').
Proof.
  exact (toast_stays_until_faded
           [Dom.Toasting "Signed out successfully. Viewing as public." false]
           "Sign out failed." true
           [Dom.TimerDue 1; Dom.TransitionEnd 0; Dom.TimerDue 0;
            Dom.Toasting "Signed out successfully. Viewing as public." false]
           eq_refl).
Defined.

(** Property X16.  [showToast], lines 29-32: once the timeout of a toast has
    been due the element is transparent, and the first [transitionend] event
    that reaches it afterwards removes it from the container for good, whatever
    else happens in between and afterwards.  When the two follow each other
    directly the other toasts keep their places. *)
Theorem toast_removed_after_fade evs id evs1 evs2 :
  let d := Dom.domRun (Dom.newDocument true) evs in
  In id (Dom.timeouts d) →
  let d' := Dom.domRun d (Dom.TimerDue id :: evs1
                          ++ Dom.TransitionEnd id :: evs2) in
  Dom.onDisplay id d' = false
  ∧ Dom.opacity <$> Dom.elements d' !! id = Some (Some "0")
  ∧ Dom.toastContainer (Dom.domRun d [Dom.TimerDue id; Dom.TransitionEnd id])
    = List.filter (λ j, negb (Nat.eqb j id)) <$> Dom.toastContainer d.
Proof.
  intros d Hin d'.
  assert (Dom.wellFormed d) as Hwf
    by apply domRun_wellFormed, newDocument_wellFormed.
  pose proof (onTimeout_faded id d Hwf Hin) as H1.
  pose proof (domRun_faded id _ evs1 H1) as H2.
  pose proof (onTransitionEnd_gone id _ H2) as H3.
  pose proof (domStep_faded id _ (Dom.TransitionEnd id) H2) as H4.
  assert (d' = Dom.domRun
                 (Dom.remove id (Dom.domRun (Dom.onTimeout id d) evs1)) evs2)
    as Hd'.
  { unfold d'. change (Dom.TimerDue id :: evs1 ++ Dom.TransitionEnd id :: evs2)
      with ([Dom.TimerDue id] ++ evs1 ++ [Dom.TransitionEnd id] ++ evs2).
    rewrite !domRun_app. simpl. by rewrite H3. }
  simpl in H4. rewrite H3 in H4.
  pose proof (domRun_faded id _ evs2 H4) as (_ & t & Ht & Ho & _).
  pose proof (domRun_gone id _ evs2
                (conj (proj1 H4) (remove_gone id _))) as [_ Hgone].
  rewrite <- Hd' in Ht, Hgone. split; [|split].
  - destruct (Dom.onDisplay id d') eqn:Hd; [|done].
    by apply onDisplay_In in Hd.
  - by rewrite Ht, <- Ho.
  - simpl. rewrite (onTransitionEnd_gone id _ H1). simpl.
    unfold Dom.onTimeout.
    rewrite bool_decide_eq_true_2 by by apply list_elem_of_In.
    simpl. by destruct (Dom.toastContainer d).
Qed.

Lemma toast_removed_after_fade_witness :
  let d := Dom.domRun (Dom.newDocument true)
             [Dom.Toasting "Signed out successfully. Viewing as public." false;
              Dom.Toasting "Sign out failed." true] in
  let d' := Dom.domRun d (Dom.TimerDue 0
                          :: [Dom.Toasting "Sign out failed." true;
                              Dom.TransitionEnd 1]
                          ++ Dom.TransitionEnd 0
                          :: [Dom.TransitionEnd 0; Dom.TimerDue 1]) in
  In 0 (Dom.timeouts d)
  ∧ Dom.onDisplay 0 d' = false
  ∧ Dom.opacity <$> Dom.elements d' !! 0 = Some (Some "0")
  ∧ Dom.toastContainer (Dom.domRun d [Dom.TimerDue 0; Dom.TransitionEnd 0])
    = List.filter (λ j, negb (Nat.eqb j 0)) <$> Dom.toastContainer d.
Proof.
  assert (In 0 (Dom.timeouts
                  (Dom.domRun (Dom.newDocument true)
                     [Dom.Toasting "Signed out successfully. Viewing as public." false;
                      Dom.Toasting "Sign out failed." true])))
    as Hin by (vm_compute; auto).
  exact (conj Hin
           (toast_removed_after_fade
              [Dom.Toasting "Signed out successfully. Viewing as public." false;
               Dom.Toasting "Sign out failed." true] 0
              [Dom.Toasting "Sign out failed." true; Dom.TransitionEnd 1]
              [Dom.TransitionEnd 0; Dom.TimerDue 1] Hin)).
Defined.

End Toasts.

(** ** The counter document *)



